(** * Adaptive pipeline (main.py): a shallow embedding and its properties

    The development follows [main.py]:
    - [load_dicom_file], [adaptive_preprocessing], [process_file] and the
      batch loop of the [__main__] block are embedded as Rocq functions;
    - NumPy scalars are IEEE-754 binary64 numbers ([Floats.SpecFloat] with
      precision 53 and maximal exponent 1024);
    - slicing and [np.clip] are written out in module [np];
    - the numerical routines of NumPy ([np.percentile], [np.std],
      [np.mean]), the OpenCV filters, pydicom, the file system and the
      standard output are interfaces ([NumPy], [Cv2], [Host]): the code only
      sequences them.

    Part I holds the definitions, Part II the lemmas and the theorems on
    the specification's claims, Part III further properties of the code. *)

From Stdlib Require Import ZArith List Bool Lia String Ascii.
From Stdlib Require Import Floats.SpecFloat.
Import ListNotations.
Open Scope Z_scope.

(* ===================================================================== *)
(** * Part I. Definitions                                                *)
(* ===================================================================== *)

(** ** Python exceptions and results

    [Raise e] stands for an exception that [except Exception] catches;
    [str(e)] is the carried message. *)

Inductive exn : Type := Exception (msg : string).

Definition str_exn (e : exn) : string := let 'Exception m := e in m.

Inductive result (A : Type) : Type :=
| Ok (a : A)
| Raise (e : exn).
Arguments Ok {A} a.
Arguments Raise {A} e.

Definition rbind {A B} (r : result A) (k : A -> result B) : result B :=
  match r with
  | Ok a => k a
  | Raise e => Raise e
  end.

Declare Scope result_scope.
Delimit Scope result_scope with res.
Notation "x <- r ;; k" := (rbind r (fun x => k))
  (at level 61, r at next level, right associativity) : result_scope.
Notation "' p <- r ;; k" := (rbind r (fun p => k))
  (at level 61, p pattern, r at next level, right associativity) : result_scope.

(** ** IEEE-754 binary64 (Python [float], [np.float64]) *)

Module B64.

Definition prec : Z := 53.
Definition emax : Z := 1024.

Definition float : Type := spec_float.

Definition pzero : float := S754_zero false.
Definition nan : float := S754_nan.

(** Conversion of a Python [int] (or of an integer array element). *)
Definition of_Z (z : Z) : float := binary_normalize prec emax z 0 false.

Definition add : float -> float -> float := SFadd prec emax.
Definition sub : float -> float -> float := SFsub prec emax.
Definition mul : float -> float -> float := SFmul prec emax.
Definition div : float -> float -> float := SFdiv prec emax.
Definition sqrt : float -> float := SFsqrt prec emax.
Definition opp : float -> float := SFopp.

(** [ltb a b] is Python's [a < b]; [leb a b] is [a <= b]; both are
    [False] as soon as one side is NaN. *)
Definition ltb : float -> float -> bool := SFltb.
Definition leb : float -> float -> bool := SFleb.

Definition is_nan (x : float) : bool :=
  match x with S754_nan => true | _ => false end.

(** The decimal literal [n/d] with [n] and [d] exactly representable: the
    correctly rounded quotient is the binary64 number nearest to the
    decimal, which is what the Python parser produces. *)
Definition dec (n d : Z) : float := div (of_Z n) (of_Z d).

(** The canonical binary64 representation of an integer [0 < z < 2^53]. *)
Definition canon (s : bool) (z : Z) : float :=
  S754_finite s (Z.to_pos (z * 2 ^ (prec - (Z.log2 z + 1))))
              (Z.log2 z + 1 - prec).

(** A shift record with no bit lost so far. *)
Definition exact_rec (m : Z) : shr_record :=
  {| shr_m := m; shr_r := false; shr_s := false |}.

End B64.

Definition float : Type := B64.float.

(** ** Images *)

(** A 2-D array of integer samples, row-major: the list of its rows. *)
Definition image : Type := list (list Z).

(** What [adaptive_preprocessing] may receive: a 2-D array or a 3-D array
    (rows, columns, channels). *)
Inductive ndarray : Type :=
| Arr2 (a : image)
| Arr3 (a : list (list (list Z))).

Definition len {A} (l : list A) : Z := Z.of_nat (List.length l).

(** [img.shape] of a 2-D array. *)
Definition shape (img : image) : Z * Z :=
  (len img, match img with [] => 0 | r :: _ => len r end).

(** Every row has [w] samples. *)
Definition rect (w : Z) (img : image) : Prop :=
  Forall (fun r => len r = w) img.

(** All samples are 8-bit values. *)
Definition is_uint8 (img : image) : Prop :=
  Forall (Forall (fun x => 0 <= x <= 255)) img.

(** The constant image of [h] rows and [w] columns. *)
Definition flat (h w : nat) (c : Z) : image := repeat (repeat c w) h.

(** ** NumPy primitives *)

Module np.

(** *** Basic slicing [l[start:stop]]

    CPython's [PySlice_AdjustIndices] with step 1: a negative bound is
    counted from the end, then both bounds are clamped into [0, len]. *)
Definition adjust_index (i n : Z) : Z :=
  if i <? 0 then (if i + n <? 0 then 0 else i + n)
  else (if n <=? i then n else i).

Definition slice_bounds (start stop n : Z) : Z * Z :=
  (adjust_index start n, adjust_index stop n).

Definition slice {A} (start stop : Z) (l : list A) : list A :=
  let '(a, b) := slice_bounds start stop (len l) in
  firstn (Z.to_nat (b - a)) (skipn (Z.to_nat a) l).

(** [img[r0:r1, c0:c1]] *)
Definition slice2 (img : image) (r0 r1 c0 c1 : Z) : image :=
  map (slice c0 c1) (slice r0 r1 img).

(** [a.ravel()]: all samples in row-major order. *)
Definition ravel (img : image) : list Z := List.concat img.

(** *** [np.clip(img, 0, 255).astype(np.uint8)] on integer samples *)
Definition clip_sample (x : Z) : Z := Z.min (Z.max x 0) 255.
Definition clip_uint8 (img : image) : image := map (map clip_sample) img.

(** *** [np.clip] on a float64 scalar

    [np.clip(x, lo, hi)] is [minimum(maximum(x, lo), hi)]; both propagate
    a NaN first argument. *)
Definition maximum (a b : float) : float :=
  if B64.is_nan a then a else if B64.ltb b a then a else b.
Definition minimum (a b : float) : float :=
  if B64.is_nan a then a else if B64.ltb a b then a else b.
Definition clip (x lo hi : float) : float := minimum (maximum x lo) hi.

End np.

(** ** NumPy's numerical routines

    [np_percentile img q] is [np.percentile(img, q)], which raises on data it
    cannot index; [np_std p] is [np.std(p)] of a 2-D array; [np_mean l] is
    [np.mean(l)] of a list of float64 scalars. *)

Class NumPy : Type := {
  np_percentile : image -> Z -> result float;
  np_std : image -> float;
  np_mean : list float -> float
}.

(** What the properties below need of these routines.  A percentile of a
    non-empty array exists, and asking for one of an array without samples
    raises (an [IndexError]).  On constant 8-bit data every sum NumPy forms
    is an exact integer, whatever the order of summation: every percentile
    is the constant, the standard deviation is [+0.0], and the mean of
    zeros is [+0.0]. *)
Class NumPyLaws (numpy : NumPy) : Prop := {
  percentile_defined : forall img w q,
    rect w img -> 0 < len img -> 0 < w -> 0 <= q <= 100 ->
    exists v, np_percentile img q = Ok v;
  percentile_empty : forall img q,
    np.ravel img = [] -> exists e, np_percentile img q = Raise e;
  percentile_flat : forall h w c q,
    (0 < h)%nat -> (0 < w)%nat -> 0 <= c <= 255 -> 0 <= q <= 100 ->
    np_percentile (flat h w c) q = Ok (B64.of_Z c);
  std_flat : forall h w c,
    (0 < h)%nat -> (0 < w)%nat -> 0 <= c <= 255 ->
    Z.of_nat h * Z.of_nat w <= 2 ^ 32 ->
    np_std (flat h w c) = B64.pzero;
  mean_zeros : forall n,
    (0 < n)%nat -> Z.of_nat n <= 2 ^ 32 ->
    np_mean (repeat B64.pzero n) = B64.pzero
}.

(** ** OpenCV

    The filters are external; a call either returns an array or raises
    [cv2.error].  [Laplacian_var img] is [cv2.Laplacian(img, CV_64F).var()]. *)

Class Cv2 : Type := {
  cvtColor_BGR2GRAY : list (list (list Z)) -> result image;
  Laplacian_var : image -> result float;
  CLAHE_apply : float -> Z * Z -> image -> result image;
  bilateralFilter : image -> Z -> Z -> Z -> result image;
  fastNlMeansDenoising : image -> float -> Z -> Z -> result image;
  GaussianBlur : image -> Z * Z -> float -> result image;
  addWeighted : image -> float -> image -> float -> Z -> result image
}.

(** Every filter returns an array of the shape of its input (the OpenCV
    contract: "dst has the same size as src"). *)
Class Cv2Shapes (cv : Cv2) : Prop := {
  cvtColor_shape : forall a g, cvtColor_BGR2GRAY a = Ok g ->
    len g = len a /\
    forall w, Forall (fun r => len r = w) a -> rect w g;
  CLAHE_shape : forall c t a b, CLAHE_apply c t a = Ok b ->
    len b = len a /\ forall w, rect w a -> rect w b;
  bilateral_shape : forall a d sc ss b, bilateralFilter a d sc ss = Ok b ->
    len b = len a /\ forall w, rect w a -> rect w b;
  fastNlMeans_shape : forall a h t s b, fastNlMeansDenoising a h t s = Ok b ->
    len b = len a /\ forall w, rect w a -> rect w b;
  GaussianBlur_shape : forall a k s b, GaussianBlur a k s = Ok b ->
    len b = len a /\ forall w, rect w a -> rect w b;
  addWeighted_shape : forall a al b be g c, addWeighted a al b be g = Ok c ->
    len c = len a /\ forall w, rect w a -> rect w c
}.

(** ** adaptive_preprocessing: metrics (lines 42-58) *)

Definition patch_size : Z := 40.

(** The eight slices of lines 48-57, in source order. *)
Definition patches (img : image) : list image :=
  let '(h, w) := shape img in
  [ np.slice2 img 0 patch_size 0 patch_size;
    np.slice2 img 0 patch_size (w - patch_size) w;
    np.slice2 img (h - patch_size) h 0 patch_size;
    np.slice2 img (h - patch_size) h (w - patch_size) w;
    np.slice2 img (h / 2 - patch_size / 2) (h / 2 + patch_size / 2)
              0 patch_size;
    np.slice2 img (h / 2 - patch_size / 2) (h / 2 + patch_size / 2)
              (w - patch_size) w;
    np.slice2 img 0 patch_size
              (w / 2 - patch_size / 2) (w / 2 + patch_size / 2);
    np.slice2 img (h - patch_size) h
              (w / 2 - patch_size / 2) (w / 2 + patch_size / 2) ].

Definition noise_level `{NumPy} (img : image) : float :=
  np_mean (map np_std (patches img)).

Definition contrast `{NumPy} (img : image) : result float :=
  (p99 <- np_percentile img 99 ;;
   p1 <- np_percentile img 1 ;;
   Ok (B64.sub p99 p1))%res.

Record metrics : Type := {
  m_contrast : float;
  m_sharpness : float;
  m_noise_level : float
}.

Definition estimate_metrics `{NumPy} `{Cv2} (img : image) : result metrics :=
  (contrast <- contrast img ;;
   sharpness <- Laplacian_var img ;;
   Ok {| m_contrast := contrast;
         m_sharpness := sharpness;
         m_noise_level := noise_level img |})%res.

(** ** adaptive_preprocessing: parameters (lines 61, 69, 78-85) *)

Definition clahe_clip (contrast : float) : float :=
  np.clip (B64.div contrast (B64.of_Z 40)) (B64.of_Z 1) (B64.of_Z 3).

Definition denoise_strength (noise_level : float) : float :=
  np.clip (B64.mul noise_level (B64.dec 6 10)) (B64.of_Z 5) (B64.of_Z 15).

Definition strength (sharpness : float) : float :=
  if B64.ltb sharpness (B64.of_Z 20) then B64.of_Z 2
  else if B64.ltb sharpness (B64.of_Z 80) then B64.dec 17 10
  else if B64.ltb (B64.of_Z 300) sharpness then B64.dec 7 10
  else B64.dec 11 10.

(** ** adaptive_preprocessing: the try block (lines 36-90) *)

Definition adaptive_body `{NumPy} `{Cv2} (img : ndarray) : result image :=
  (img <- match img with
          | Arr3 a => cvtColor_BGR2GRAY a
          | Arr2 a => Ok a
          end ;;
   let img := np.clip_uint8 img in
   m <- estimate_metrics img ;;
   img_clahe <- CLAHE_apply (clahe_clip (m_contrast m)) (8, 8) img ;;
   img_bilateral <- bilateralFilter img_clahe 9 75 75 ;;
   img_denoised <- fastNlMeansDenoising img_bilateral
                     (denoise_strength (m_noise_level m)) 7 21 ;;
   let strength := strength (m_sharpness m) in
   gaussian <- GaussianBlur img_denoised (5, 5) (B64.dec 12 10) ;;
   addWeighted img_denoised strength gaussian
               (B64.opp (B64.sub strength (B64.of_Z 1))) 0)%res.

(** ** Strings *)

Definition lower_ascii (c : ascii) : ascii :=
  let n := nat_of_ascii c in
  if ((65 <=? n) && (n <=? 90))%nat then ascii_of_nat (n + 32) else c.

(** [s.lower()] on ASCII text. *)
Fixpoint lower (s : string) : string :=
  match s with
  | EmptyString => EmptyString
  | String c t => String (lower_ascii c) (lower t)
  end.

(** [s.endswith(suffix)]: some tail of [s] is [suffix]. *)
Fixpoint endswith (s suffix : string) : bool :=
  if String.eqb s suffix then true
  else match s with
       | EmptyString => false
       | String _ t => endswith t suffix
       end.

Definition nl : string := String (ascii_of_nat 10) EmptyString.

(** ** The host: pydicom, the file system, [cv2.imwrite], standard output

    [decode_dicom path w] is the body of the try block of [load_dicom_file]
    (lines 13-27: [pydicom.dcmread], rescale, MONOCHROME1 inversion and 8-bit
    normalisation), run in the world [w].  [stdout_write line w] is what
    [print(line)] does: it returns, or raises (for instance
    [UnicodeEncodeError] on text the encoding of [sys.stdout] cannot
    represent). *)

Class Host : Type := {
  world : Type;
  dataset : Type;
  decode_dicom : string -> world -> result (ndarray * dataset);
  os_listdir : string -> world -> result (list string);
  os_path_exists : string -> world -> bool;
  os_path_join : string -> string -> string;
  os_path_splitext : string -> string * string;
  cv2_imwrite : string -> image -> world -> result bool * world;
  stdout_write : string -> world -> result unit
}.

(** A standard output on which no [print] ever fails. *)
Definition stdout_accepts_all (host : Host) : Prop :=
  forall line w, stdout_write line w = Ok tt.

(** What a run does to the outside: lines printed and [cv2.imwrite] calls. *)
Inductive event : Type :=
| Printed (line : string)
| Imwrite (path : string) (img : image).

Record state `{Host} : Type := {
  st_world : world;
  st_trace : list event
}.

Definition IO `{Host} (A : Type) : Type := state -> result A * state.

Definition ret `{Host} {A} (a : A) : IO A := fun st => (Ok a, st).

Definition bind `{Host} {A B} (m : IO A) (k : A -> IO B) : IO B :=
  fun st =>
    match m st with
    | (Ok a, st') => k a st'
    | (Raise e, st') => (Raise e, st')
    end.

Declare Scope io_scope.
Delimit Scope io_scope with io.
Notation "x <- m ;; k" := (bind m (fun x => k))
  (at level 61, m at next level, right associativity) : io_scope.
Notation "' p <- m ;; k" := (bind m (fun p => k))
  (at level 61, p pattern, m at next level, right associativity) : io_scope.
Notation "m ;; k" := (bind m (fun _ => k))
  (at level 61, right associativity) : io_scope.

(** [try: body except Exception as e: handler(e)] *)
Definition try_except `{Host} {A} (body : IO A) (handler : exn -> IO A)
  : IO A :=
  fun st =>
    match body st with
    | (Ok a, st') => (Ok a, st')
    | (Raise e, st') => handler e st'
    end.

Definition emit `{Host} (ev : event) (st : state) : state :=
  {| st_world := st_world st; st_trace := st_trace st ++ [ev] |}.

Definition print `{Host} (line : string) : IO unit :=
  fun st =>
    match stdout_write line (st_world st) with
    | Ok _ => (Ok tt, emit (Printed line) st)
    | Raise e => (Raise e, st)
    end.

Definition lift `{Host} {A} (r : result A) : IO A := fun st => (r, st).

Definition dcmread `{Host} (file_path : string)
  : IO (ndarray * dataset) :=
  fun st => (decode_dicom file_path (st_world st), st).

Definition imwrite `{Host} (path : string) (img : image) : IO bool :=
  fun st =>
    let '(r, w) := cv2_imwrite path img (st_world st) in
    (r, {| st_world := w; st_trace := st_trace st ++ [Imwrite path img] |}).

Definition listdir `{Host} (dir : string) : IO (list string) :=
  fun st => (os_listdir dir (st_world st), st).

(** ** The lines the program prints *)

Definition line_load_error (file_path : string) (e : exn) : string :=
  " Error loading " ++ file_path ++ ": " ++ str_exn e.

Definition line_preprocessing_failed (e : exn) : string :=
  " Adaptive preprocessing failed: " ++ str_exn e.

Definition line_processing (file_path : string) : string :=
  nl ++ "=== Processing " ++ file_path ++ " ===".

Definition line_saved (out_path : string) : string :=
  "✅ Saved processed image: " ++ out_path.

Definition line_could_not_save (e : exn) : string :=
  " Could not save processed image: " ++ str_exn e.

Definition line_listdir_failed (dir : string) (e : exn) : string :=
  " Failed to list directory '" ++ dir ++ "': " ++ str_exn e.

Definition line_not_found (file : string) : string :=
  "⚠️ File not found: " ++ file.

(** ** load_dicom_file (lines 10-31) *)

Definition load_dicom_file `{Host} (file_path : string)
  : IO (option ndarray * option dataset) :=
  try_except
    ('(img, ds) <- dcmread file_path ;;
     ret (Some img, Some ds))%io
    (fun e =>
       print (line_load_error file_path e) ;;
       ret (None, None))%io.

(** ** adaptive_preprocessing (lines 33-94) *)

Definition adaptive_preprocessing `{Host} `{NumPy} `{Cv2} (img : ndarray)
  : IO (option image) :=
  try_except
    (img_sharpened <- lift (adaptive_body img) ;;
     ret (Some img_sharpened))%io
    (fun e =>
       print (line_preprocessing_failed e) ;;
       ret None)%io.

(** ** process_file (lines 96-113) *)

Definition out_path_of `{Host} (file_path : string) : string :=
  fst (os_path_splitext file_path) ++ "_processed.png".

Definition process_file `{Host} `{NumPy} `{Cv2} (file_path : string)
  : IO unit :=
  (print (line_processing file_path) ;;
   '(img, ds) <- load_dicom_file file_path ;;
   match img with
   | None => ret tt
   | Some img =>
       result <- adaptive_preprocessing img ;;
       match result with
       | None => ret tt
       | Some result =>
           let out_path := out_path_of file_path in
           try_except
             (imwrite out_path result ;;
              print (line_saved out_path))
             (fun e => print (line_could_not_save e))
       end
   end)%io.

(** ** The [__main__] block (lines 115-128) *)

Definition image_dir : string := "Enter your Path".

Definition is_candidate (f : string) : bool :=
  endswith (lower f) ".dcm" || endswith (lower f) ".rvg".

Fixpoint for_each `{Host} (l : list string) (body : string -> IO unit)
  : IO unit :=
  match l with
  | [] => ret tt
  | x :: t => (body x ;; for_each t body)%io
  end.

Definition list_sample_files `{Host} : IO (list string) :=
  try_except
    (names <- listdir image_dir ;;
     ret (map (os_path_join image_dir) (filter is_candidate names)))%io
    (fun e =>
       print (line_listdir_failed image_dir e) ;;
       ret [])%io.

Definition loop_body `{Host} `{NumPy} `{Cv2} (file : string) : IO unit :=
  fun st =>
    if os_path_exists file (st_world st) then process_file file st
    else print (line_not_found file) st.

Definition main_loop `{Host} `{NumPy} `{Cv2} (sample_files : list string)
  : IO unit :=
  for_each sample_files loop_body.

Definition main `{Host} `{NumPy} `{Cv2} : IO unit :=
  (sample_files <- list_sample_files ;;
   main_loop sample_files)%io.

(** ** Definitions that follow the specification's words

    They are compared with the code's definitions in Part II. *)

(** "clamp(x, lo, hi)": [lo] below the range, [hi] above it, [x] inside. *)
Definition spec_clamp (x lo hi : float) : float :=
  if B64.ltb x lo then lo else if B64.ltb hi x then hi else x.

(** A binary64 number that is finite and carries no minus sign. *)
Definition finite_nonneg (x : float) : bool :=
  match x with
  | S754_zero false | S754_finite false _ _ => true
  | _ => false
  end.

(** The interpolation weights [r/100] and their complements [1 - r/100]. *)
Definition lerp_weights_ok : bool :=
  forallb (fun r => finite_nonneg (B64.dec r 100)
                    && finite_nonneg (B64.sub (B64.of_Z 1) (B64.dec r 100)))
          (map Z.of_nat (seq 0 100)).

(** The block of [nr] rows and [nc] columns whose top-left sample is at row
    [r] and column [c]. *)
Definition block (img : image) (r c nr nc : nat) : image :=
  map (fun row => firstn nc (skipn c row)) (firstn nr (skipn r img)).

(** "A fixed 40x40 patch" placed at row [r] and column [c]. *)
Definition window (img : image) (r c : Z) : image :=
  block img (Z.to_nat r) (Z.to_nat c) 40 40.

(** "Eight fixed 40x40 patches (four corners, plus the vertical midpoints of
    the left/right edges, plus the horizontal midpoints of the top/bottom
    edges)", centred "by integer floor division", on an image of height [h]
    and width [w]. *)
Definition spec_patches (img : image) (h w : Z) : list image :=
  [ window img 0 0;
    window img 0 (w - 40);
    window img (h - 40) 0;
    window img (h - 40) (w - 40);
    window img (h / 2 - 20) 0;
    window img (h / 2 - 20) (w - 40);
    window img 0 (w / 2 - 20);
    window img (h - 40) (w / 2 - 20) ].

(** "Parameter Policy: consumes QualityMetrics, produces FilterParameters". *)
Record filter_parameters : Type := {
  claheClip : float;
  denoiseStrength : float;
  sharpenStrength : float
}.

Definition policy (m : metrics) : filter_parameters :=
  {| claheClip := clahe_clip (m_contrast m);
     denoiseStrength := denoise_strength (m_noise_level m);
     sharpenStrength := strength (m_sharpness m) |}.

(** "Range clamp: clip every sample to [0,255], cast to 8-bit." *)
Definition spec_clamp_sample (x : Z) : Z :=
  if x <? 0 then 0 else if 255 <? x then 255 else x.

Definition spec_range_clamp (img : image) : image :=
  map (map spec_clamp_sample) img.

(** "The five stages are strictly sequential; each stage's output is the
    next stage's only input." *)
Definition run_stages (stages : list (image -> result image)) (img : image)
  : result image :=
  fold_left (fun acc stage => rbind acc stage) stages (Ok img).

(** 1. range clamp; 2. CLAHE with [claheClip] and tile grid 8x8;
    3. bilateral filter, diameter 9, sigmas 75/75; 4. non-local-means
    denoising with [denoiseStrength], windows 7/21; 5. adaptive sharpening,
    [output = denoised * s + blurred * (1 - s)] with a 5x5 Gaussian blur of
    sigma 1.2. *)
Definition spec_stages `{Cv2} (p : filter_parameters)
  : list (image -> result image) :=
  [ fun img => Ok (spec_range_clamp img);
    fun img => CLAHE_apply (claheClip p) (8, 8) img;
    fun img => bilateralFilter img 9 75 75;
    fun img => fastNlMeansDenoising img (denoiseStrength p) 7 21;
    fun denoised =>
      (blurred <- GaussianBlur denoised (5, 5) (B64.dec 12 10) ;;
       addWeighted denoised (sharpenStrength p)
                   blurred (B64.sub (B64.of_Z 1) (sharpenStrength p)) 0)%res ].

Definition spec_pipeline `{Cv2} (p : filter_parameters) (img : image)
  : result image :=
  run_stages (spec_stages p) img.

(** ** Observations on runs *)

(** The [cv2.imwrite] calls of a trace, oldest first. *)
Fixpoint writes (tr : list event) : list (string * image) :=
  match tr with
  | [] => []
  | Imwrite path img :: t => (path, img) :: writes t
  | Printed _ :: t => writes t
  end.

(** The lines printed by a trace, oldest first. *)
Fixpoint printed (tr : list event) : list string :=
  match tr with
  | [] => []
  | Printed line :: t => line :: printed t
  | Imwrite _ _ :: t => printed t
  end.

(** Height of the array handed to [adaptive_preprocessing]. *)
Definition nd_len (a : ndarray) : Z :=
  match a with Arr2 img => len img | Arr3 img => len img end.

(** Every row of the array has [w] columns. *)
Definition nd_rect (w : Z) (a : ndarray) : Prop :=
  match a with
  | Arr2 img => rect w img
  | Arr3 img => Forall (fun r => len r = w) img
  end.

(** ** Test doubles

    Stand-ins for the interfaces, for running the definitions on concrete
    inputs.  They are not NumPy, OpenCV or an operating system. *)

(** A stand-in NumPy with plain left-to-right sums and an interpolation
    fraction taken exactly; it satisfies [NumPyLaws]. *)
Module NpDouble.

(** Reductions, accumulated in float64 from left to right. *)
Definition sum (l : list float) : float := fold_left B64.add l B64.pzero.

Definition mean (l : list float) : float :=
  B64.div (sum l) (B64.of_Z (len l)).

(** [sqrt(mean(abs(x - mean(x))**2))] with the samples converted to
    float64. *)
Definition std (l : list Z) : float :=
  let xs := map B64.of_Z l in
  let m := mean xs in
  let d := map (fun x => B64.sub x m) xs in
  B64.sqrt (mean (map (fun x => B64.mul x x) d)).

(** Percentiles by linear interpolation on the sorted data. *)
Fixpoint insert (x : Z) (l : list Z) : list Z :=
  match l with
  | [] => [x]
  | y :: t => if x <=? y then x :: l else y :: insert x t
  end.

Fixpoint sort (l : list Z) : list Z :=
  match l with
  | [] => []
  | x :: t => insert x (sort t)
  end.

(** Linear interpolation between two samples. *)
Definition lerp (a b : Z) (t : float) : float :=
  let diff_b_a := B64.of_Z (b - a) in
  if B64.leb (B64.dec 1 2) t
  then B64.sub (B64.of_Z b) (B64.mul diff_b_a (B64.sub (B64.of_Z 1) t))
  else B64.add (B64.of_Z a) (B64.mul diff_b_a t).

(** The sample at position [q/100 * (n-1)] of the sorted data, linearly
    interpolated between the two neighbours, the position being split
    exactly into [q*(n-1) = 100*i + r]. *)
Definition percentile (a : list Z) (q : Z) : result float :=
  match a with
  | [] => Raise (Exception "IndexError: index -1 is out of bounds"%string)
  | _ => Ok (
      let s := sort a in
      let n := len a in
      let i := (q * (n - 1)) / 100 in
      let r := (q * (n - 1)) mod 100 in
      let prev := nth (Z.to_nat i) s 0 in
      let next := nth (Z.to_nat (Z.min (i + 1) (n - 1))) s 0 in
      lerp prev next (B64.dec r 100))
  end.

End NpDouble.

Definition np_double : NumPy := {|
  np_percentile img q := NpDouble.percentile (np.ravel img) q;
  np_std img := NpDouble.std (np.ravel img);
  np_mean l := NpDouble.mean l
|}.

(** A stand-in OpenCV whose filters return their input.  The colour
    conversion wants three channels and CLAHE rejects an empty array, as
    OpenCV does. *)
Definition cv_double : Cv2 := {|
  cvtColor_BGR2GRAY a :=
    if forallb (forallb (fun px => (List.length px =? 3)%nat)) a
    then Ok (map (map (fun px => nth 0 px 0)) a)
    else Raise (Exception "Invalid number of channels in input image"%string);
  Laplacian_var img := Ok B64.pzero;
  CLAHE_apply clip grid img :=
    match img with
    | [] => Raise (Exception "empty image"%string)
    | _ => Ok img
    end;
  bilateralFilter img d sc ss := Ok img;
  fastNlMeansDenoising img h t s := Ok img;
  GaussianBlur img k s := Ok img;
  addWeighted a alpha b beta gamma := Ok a
|}.

Fixpoint rsplit_dot (s : string) : option (string * string) :=
  match s with
  | EmptyString => None
  | String c t =>
      match rsplit_dot t with
      | Some (root, ext) => Some (String c root, ext)
      | None => if Ascii.eqb c "."%char then Some (EmptyString, s) else None
      end
  end.

(** A file name with a byte that is not valid UTF-8: what [os.listdir]
    returns, with [surrogateescape], for a name the file system encoding
    cannot decode. *)
Definition undecodable_name : string :=
  String (ascii_of_nat 255) ".dcm".

(** Text a UTF-8 standard output can encode: no byte 0xF8..0xFF. *)
Fixpoint utf8_encodable (s : string) : bool :=
  match s with
  | EmptyString => true
  | String c t => (nat_of_ascii c <? 248)%nat && utf8_encodable t
  end.

(** A stand-in host with a few files, whose directory lists [names].
    [strict_stdout] tells whether its standard output raises
    [UnicodeEncodeError] on text it cannot encode. *)
Definition host_with (strict_stdout : bool) (names : list string) : Host := {|
  world := list (string * image);
  dataset := unit;
  decode_dicom path w :=
    if String.eqb path "Enter your Path/a.dcm"
    then Ok (Arr2 [[0; 85]; [170; 255]], tt)
    else if String.eqb path "Enter your Path/c.rvg"
    then Ok (Arr2 [[255; 0]; [7; 30]], tt)
    else if String.eqb path "Enter your Path/frames.dcm"
    then Ok (Arr3 [[[0; 36]; [72; 109]]; [[145; 182]; [218; 255]]], tt)
    else Raise (Exception "not a DICOM file"%string);
  os_listdir dir w := Ok names;
  os_path_exists path w := negb (String.eqb path "Enter your Path/gone.dcm");
  os_path_join dir f := (dir ++ "/" ++ f)%string;
  os_path_splitext path :=
    match rsplit_dot path with
    | Some (root, ext) => (root, ext)
    | None => (path, EmptyString)
    end;
  cv2_imwrite path img w := (Ok true, w ++ [(path, img)]);
  stdout_write line w :=
    if strict_stdout && negb (utf8_encodable line)
    then Raise (Exception "UnicodeEncodeError"%string)
    else Ok tt
|}.

Definition host_double : Host :=
  host_with false ["a.dcm"; "bad.dcm"; "notes.txt"; "c.rvg"]%string.

(** A directory whose first name cannot be decoded, on a host with a strict
    and on one with a lenient standard output. *)
Definition host_strict : Host :=
  host_with true [undecodable_name; "a.dcm"%string].

Definition host_lenient : Host :=
  host_with false [undecodable_name; "a.dcm"%string].

Definition st0 : @state host_double :=
  @Build_state host_double [] [].

Definition st0_strict : @state host_strict :=
  @Build_state host_strict [] [].

Definition st0_lenient : @state host_lenient :=
  @Build_state host_lenient [] [].

(** A host on which [cv2.imwrite] writes nothing and returns [False]. *)
Definition host_readonly : Host := {|
  world := unit;
  dataset := unit;
  decode_dicom path w := Ok (Arr2 [[0; 255]], tt);
  os_listdir dir w := Ok [];
  os_path_exists path w := true;
  os_path_join dir f := (dir ++ "/" ++ f)%string;
  os_path_splitext path := (path, EmptyString);
  cv2_imwrite path img w := (Ok false, w);
  stdout_write line w := Ok tt
|}.

(** A host whose standard output is plain ASCII: it cannot print the check
    mark of the success line. *)
Definition host_ascii : Host := {|
  world := list (string * image);
  dataset := unit;
  decode_dicom path w := Ok (Arr2 [[0; 255]], tt);
  os_listdir dir w := Ok [];
  os_path_exists path w := true;
  os_path_join dir f := (dir ++ "/" ++ f)%string;
  os_path_splitext path := (path, EmptyString);
  cv2_imwrite path img w := (Ok true, w ++ [(path, img)]);
  stdout_write line w :=
    if forallb (fun c => (nat_of_ascii c <? 128)%nat)
               (list_ascii_of_string line)
    then Ok tt
    else Raise (Exception "UnicodeEncodeError"%string)
|}.

(* ===================================================================== *)
(** * Part II. Lemmas and theorems                                       *)
(* ===================================================================== *)

(** ** Exact binary64 arithmetic on small integers *)

Module B64Facts.
Import B64.

Lemma iter_pos_nat {A} (f : A -> A) (p : positive) (x : A) :
  iter_pos f p x = Nat.iter (Pos.to_nat p) f x.
Proof.
  revert x; induction p as [p IH | p IH |]; intros x; cbn [iter_pos].
  - rewrite !IH, Pos2Nat.inj_xI.
    replace (S (2 * Pos.to_nat p))%nat
      with (S (Pos.to_nat p + Pos.to_nat p))%nat by lia.
    now rewrite Nat.iter_succ_r, Nat.iter_add.
  - rewrite !IH, Pos2Nat.inj_xO.
    replace (2 * Pos.to_nat p)%nat
      with (Pos.to_nat p + Pos.to_nat p)%nat by lia.
    now rewrite Nat.iter_add.
  - reflexivity.
Qed.

Lemma shr_1_double m : 0 <= m -> shr_1 (exact_rec (2 * m)) = exact_rec m.
Proof. destruct m as [| p | p]; intros Hm; try reflexivity; lia. Qed.

Lemma shr_iter_exact (n : nat) m :
  0 <= m ->
  Nat.iter n shr_1 (exact_rec (m * 2 ^ Z.of_nat n)) = exact_rec m.
Proof.
  revert m; induction n as [| n IH]; intros m Hm.
  - simpl. now rewrite Z.mul_1_r.
  - rewrite Nat.iter_succ_r, Nat2Z.inj_succ, Z.pow_succ_r by lia.
    replace (m * (2 * 2 ^ Z.of_nat n)) with (2 * (m * 2 ^ Z.of_nat n)) by ring.
    rewrite shr_1_double by (apply Z.mul_nonneg_nonneg; [lia | apply Z.pow_nonneg; lia]).
    now apply IH.
Qed.

Lemma digits2_size p : digits2_pos p = Pos.size p.
Proof. induction p; simpl; congruence. Qed.

Lemma digits2_log2 p : Zpos (digits2_pos p) = Z.log2 (Zpos p) + 1.
Proof.
  rewrite digits2_size.
  destruct p; simpl; rewrite ?Pos2Z.inj_succ; lia.
Qed.

Lemma iter_xO m d : Zpos (Pos.iter xO m d) = Zpos m * 2 ^ Zpos d.
Proof.
  induction d as [| d IH] using Pos.peano_ind.
  - simpl. lia.
  - rewrite Pos.iter_succ, Pos2Z.inj_xO, IH, Pos2Z.inj_succ, Z.pow_succ_r by lia.
    ring.
Qed.

Lemma log2_bounds z : 0 < z < 2 ^ 53 -> 0 <= Z.log2 z < 53.
Proof.
  intros [H1 H2]. split; [apply Z.log2_nonneg | apply Z.log2_lt_pow2; lia].
Qed.

Lemma canon_mantissa_pos z :
  0 < z < 2 ^ 53 -> 0 < z * 2 ^ (53 - (Z.log2 z + 1)).
Proof.
  intros Hz. pose proof (log2_bounds z Hz).
  apply Z.mul_pos_pos; [lia | apply Z.pow_pos_nonneg; lia].
Qed.

(** A 53-bit mantissa at its own exponent is left alone by the shift. *)
Lemma shr_fexp_fixed m z :
  0 < z < 2 ^ 53 ->
  Zpos m = z * 2 ^ (53 - (Z.log2 z + 1)) ->
  shr_fexp 53 1024 (Zpos m) (Z.log2 z + 1 - 53) loc_Exact
  = (exact_rec (Zpos m), Z.log2 z + 1 - 53).
Proof.
  intros Hz Hm. pose proof (log2_bounds z Hz) as Hl.
  unfold shr_fexp. cbn [Zdigits2].
  rewrite digits2_log2, Hm, Z.log2_mul_pow2 by lia.
  unfold fexp, emin.
  replace (Z.max (53 - (Z.log2 z + 1) + Z.log2 z + 1 + (Z.log2 z + 1 - 53) - 53)
                 (3 - 1024 - 53) - (Z.log2 z + 1 - 53)) with 0 by lia.
  reflexivity.
Qed.

(** Rounding an exactly representable integer [z = M * 2^e] gives its
    canonical representation: nothing is lost in the shift. *)
Lemma binary_round_aux_exact s M e z :
  0 < z < 2 ^ 53 ->
  e <= Z.log2 z + 1 - 53 ->
  Zpos M = z * 2 ^ (- e) ->
  binary_round_aux prec emax s (Zpos M) e loc_Exact = canon s z.
Proof.
  intros Hz He HM. pose proof (log2_bounds z Hz) as Hl.
  pose proof (canon_mantissa_pos z Hz) as Hpos.
  assert (H1 : shr_fexp 53 1024 (Zpos M) e loc_Exact
               = (exact_rec (z * 2 ^ (53 - (Z.log2 z + 1))),
                  Z.log2 z + 1 - 53)).
  { unfold shr_fexp. cbn [Zdigits2].
    rewrite digits2_log2, HM, Z.log2_mul_pow2 by lia.
    unfold fexp, emin.
    replace (Z.max (- e + Z.log2 z + 1 + e - 53) (3 - 1024 - 53))
      with (Z.log2 z + 1 - 53) by lia.
    cbn [shr_record_of_loc]. unfold shr.
    destruct (Z.log2 z + 1 - 53 - e) as [| n | n] eqn:Hn.
    - f_equal; [| lia]. unfold exact_rec. do 3 f_equal. lia.
    - rewrite iter_pos_nat. f_equal; [| lia].
      replace (z * 2 ^ (- e))
        with (z * 2 ^ (53 - (Z.log2 z + 1)) * 2 ^ Z.of_nat (Pos.to_nat n)).
      + apply shr_iter_exact. lia.
      + rewrite positive_nat_Z, <- Z.mul_assoc, <- Z.pow_add_r by lia.
        do 2 f_equal. lia.
    - lia. }
  unfold binary_round_aux, prec, emax. rewrite H1.
  cbn [shr_m exact_rec loc_of_shr_record round_nearest_even].
  destruct (z * 2 ^ (53 - (Z.log2 z + 1))) as [| m | m] eqn:Hm; try lia.
  rewrite (shr_fexp_fixed m z Hz) by (symmetry; exact Hm).
  cbn [shr_m exact_rec].
  replace (Z.log2 z + 1 - 53 <=? 1024 - 53) with true
    by (symmetry; apply Z.leb_le; lia).
  unfold canon, prec. rewrite Hm. reflexivity.
Qed.

Lemma shl_align_fst m e e' :
  e' <= e -> Zpos (fst (shl_align m e e')) = Zpos m * 2 ^ (e - e').
Proof.
  intros He. unfold shl_align.
  destruct (e' - e) as [| d | d] eqn:Hd; cbn [fst]; try lia.
  - replace (e - e') with 0 by lia. lia.
  - rewrite iter_xO. do 2 f_equal. lia.
Qed.

Lemma binary_round_exact s M e z :
  0 < z < 2 ^ 53 ->
  e <= 0 ->
  Zpos M = z * 2 ^ (- e) ->
  binary_round prec emax s M e = canon s z.
Proof.
  intros Hz He HM. pose proof (log2_bounds z Hz) as Hl.
  unfold binary_round.
  rewrite digits2_log2, HM, Z.log2_mul_pow2 by lia.
  unfold fexp, emin, prec, emax.
  replace (Z.max (- e + Z.log2 z + 1 + e - 53) (3 - 1024 - 53))
    with (Z.log2 z + 1 - 53) by lia.
  destruct (Z_le_gt_dec e (Z.log2 z + 1 - 53)) as [Hle | Hgt].
  - unfold shl_align.
    destruct (Z.log2 z + 1 - 53 - e) as [| d | d] eqn:Hd; try lia;
      now apply binary_round_aux_exact.
  - pose proof (shl_align_fst M e (Z.log2 z + 1 - 53) ltac:(lia)) as Hf.
    unfold shl_align in *.
    destruct (Z.log2 z + 1 - 53 - e) as [| d | d] eqn:Hd; try lia.
    cbn [fst] in Hf.
    apply binary_round_aux_exact; try lia.
    rewrite Hf, HM, <- Z.mul_assoc, <- Z.pow_add_r by lia.
    do 2 f_equal. lia.
Qed.

Lemma of_Z_canon z : 0 < z < 2 ^ 53 -> of_Z z = canon false z.
Proof.
  intros Hz. unfold of_Z, binary_normalize.
  destruct z as [| p | p]; try lia.
  apply binary_round_exact; lia.
Qed.

Lemma of_Z_0 : of_Z 0 = pzero.
Proof. reflexivity. Qed.

(** Adding two non-negative integers whose sum is below [2^53] is exact. *)
Lemma add_of_Z a b :
  0 <= a -> 0 <= b -> a + b < 2 ^ 53 ->
  add (of_Z a) (of_Z b) = of_Z (a + b).
Proof.
  intros Ha Hb Hab.
  destruct (Z.eq_dec a 0) as [-> | Ha0].
  { rewrite of_Z_0. simpl (0 + b).
    destruct (Z.eq_dec b 0) as [-> | Hb0]; [reflexivity |].
    rewrite of_Z_canon by lia. reflexivity. }
  destruct (Z.eq_dec b 0) as [-> | Hb0].
  { rewrite of_Z_0, Z.add_0_r, of_Z_canon by lia. reflexivity. }
  rewrite (of_Z_canon a), (of_Z_canon b), (of_Z_canon (a + b)) by lia.
  pose proof (log2_bounds a ltac:(lia)) as Hla.
  pose proof (log2_bounds b ltac:(lia)) as Hlb.
  pose proof (log2_bounds (a + b) ltac:(lia)) as Hls.
  pose proof (canon_mantissa_pos a ltac:(lia)) as Hpa.
  pose proof (canon_mantissa_pos b ltac:(lia)) as Hpb.
  assert (Hma : Z.log2 a <= Z.log2 (a + b)) by (apply Z.log2_le_mono; lia).
  assert (Hmb : Z.log2 b <= Z.log2 (a + b)) by (apply Z.log2_le_mono; lia).
  unfold add, canon, SFadd, prec. cbn [cond_Zopp].
  set (ez := Z.min (Z.log2 a + 1 - 53) (Z.log2 b + 1 - 53)).
  rewrite !shl_align_fst by lia.
  rewrite !Z2Pos.id by lia.
  rewrite <- !Z.mul_assoc, <- !Z.pow_add_r by lia.
  replace (53 - (Z.log2 a + 1) + (Z.log2 a + 1 - 53 - ez)) with (- ez) by lia.
  replace (53 - (Z.log2 b + 1) + (Z.log2 b + 1 - 53 - ez)) with (- ez) by lia.
  rewrite <- Z.mul_add_distr_r.
  assert (Hp : 0 < (a + b) * 2 ^ (- ez))
    by (apply Z.mul_pos_pos; [lia | apply Z.pow_pos_nonneg; lia]).
  unfold binary_normalize.
  destruct ((a + b) * 2 ^ (- ez)) as [| p | p] eqn:Hm; try lia.
  apply (binary_round_exact false p ez (a + b)); lia.
Qed.

Lemma sub_of_Z_diag c : 0 <= c < 2 ^ 53 -> sub (of_Z c) (of_Z c) = pzero.
Proof.
  intros Hc. destruct (Z.eq_dec c 0) as [-> | Hc0]; [reflexivity |].
  rewrite of_Z_canon by lia.
  unfold sub, canon, SFsub. cbn [cond_Zopp].
  now rewrite Z.sub_diag.
Qed.

Lemma div_eucl_exact a b : 0 < b -> Z.div_eucl (b * a) b = (a, 0).
Proof.
  intros Hb.
  pose proof (Z.div_mul a b ltac:(lia)) as Hq.
  pose proof (Z.mod_mul a b ltac:(lia)) as Hr.
  unfold Z.div, Z.modulo in *. rewrite (Z.mul_comm b a).
  destruct (Z.div_eucl (a * b) b). now subst.
Qed.

Lemma new_location_0 m : new_location m 0 = loc_Exact.
Proof. unfold new_location. now destruct (Z.even m). Qed.

(** Dividing an exact multiple by its factor is exact. *)
Lemma div_of_Z c n :
  0 <= c -> 0 < n < 2 ^ 53 -> c * n < 2 ^ 53 ->
  div (of_Z (c * n)) (of_Z n) = of_Z c.
Proof.
  intros Hc [Hn Hn53] Hcn.
  destruct (Z.eq_dec c 0) as [-> | Hc0].
  { rewrite Z.mul_0_l, of_Z_0, of_Z_canon by lia. reflexivity. }
  assert (Hc53 : c < 2 ^ 53) by nia.
  rewrite (of_Z_canon (c * n)), (of_Z_canon n), (of_Z_canon c) by nia.
  pose proof (log2_bounds c ltac:(lia)) as Hlc.
  pose proof (log2_bounds n ltac:(lia)) as Hln.
  pose proof (log2_bounds (c * n) ltac:(nia)) as Hlcn.
  pose proof (canon_mantissa_pos n ltac:(lia)) as Hpn.
  pose proof (canon_mantissa_pos (c * n) ltac:(nia)) as Hpcn.
  assert (Hk0 : Z.log2 n <= Z.log2 (c * n)) by (apply Z.log2_le_mono; nia).
  assert (Hk1 : Z.log2 (c * n) <= Z.log2 c + Z.log2 n + 1)
    by (apply Z.log2_mul_above; lia).
  set (k := Z.log2 (c * n) - Z.log2 n) in *.
  set (rhs := canon false c).
  unfold div, SFdiv, canon, prec. cbn [xorb].
  unfold SFdiv_core_binary. cbn [Zdigits2].
  rewrite !digits2_log2, !Z2Pos.id by lia.
  rewrite !Z.log2_mul_pow2 by lia.
  unfold fexp, emin, emax.
  replace (Z.min
             (Z.max
                (53 - (Z.log2 (c * n) + 1) + Z.log2 (c * n) + 1
                 + (Z.log2 (c * n) + 1 - 53)
                 - (53 - (Z.log2 n + 1) + Z.log2 n + 1 + (Z.log2 n + 1 - 53))
                 - 53) (3 - 1024 - 53))
             (Z.log2 (c * n) + 1 - 53 - (Z.log2 n + 1 - 53)))
    with (k - 53) by lia.
  replace (Z.log2 (c * n) + 1 - 53 - (Z.log2 n + 1 - 53) - (k - 53))
    with 53 by lia.
  rewrite Z.shiftl_mul_pow2 by lia.
  replace (c * n * 2 ^ (53 - (Z.log2 (c * n) + 1)) * 2 ^ 53)
    with (n * 2 ^ (53 - (Z.log2 n + 1)) * (c * 2 ^ (53 - k))).
  2:{ replace (53 - (Z.log2 n + 1)) with ((53 - (Z.log2 (c * n) + 1)) + k) by lia.
      replace (2 ^ 53) with (2 ^ k * 2 ^ (53 - k))
        by (rewrite <- Z.pow_add_r by lia; f_equal; lia).
      rewrite Z.pow_add_r by lia. ring. }
  rewrite div_eucl_exact by lia.
  rewrite new_location_0.
  assert (Hq : 0 < c * 2 ^ (53 - k))
    by (apply Z.mul_pos_pos; [lia | apply Z.pow_pos_nonneg; lia]).
  destruct (c * 2 ^ (53 - k)) as [| q | q] eqn:Hqe; try lia.
  subst rhs.
  apply (binary_round_aux_exact false q (k - 53) c); try lia.
  rewrite <- Hqe. do 2 f_equal. lia.
Qed.

(** *** The order on binary64 numbers *)

Ltac cmp_cases :=
  repeat match goal with
    | H : context [Pos.compare_cont Eq ?a ?b] |- _ =>
        change (Pos.compare_cont Eq a b) with (Pos.compare a b) in H
    | |- context [Pos.compare_cont Eq ?a ?b] =>
        change (Pos.compare_cont Eq a b) with (Pos.compare a b)
    end;
  repeat match goal with
    | H : context [Z.compare ?a ?b] |- _ =>
        destruct (Z.compare_spec a b); try discriminate H
    | |- context [Z.compare ?a ?b] => destruct (Z.compare_spec a b)
    | H : context [Pos.compare ?a ?b] |- _ =>
        destruct (Pos.compare_spec a b); try discriminate H
    | |- context [Pos.compare ?a ?b] => destruct (Pos.compare_spec a b)
    end;
  subst; cbn in *; try reflexivity; try discriminate; try lia.

Ltac sf_order :=
  unfold ltb, leb, SFltb, SFleb, SFcompare, is_nan in *;
  repeat match goal with
    | x : float |- _ => destruct x as [[|] | [|] | | [|] ? ?]
    | x : spec_float |- _ => destruct x as [[|] | [|] | | [|] ? ?]
    end;
  intros; try discriminate; try reflexivity; cmp_cases.

Lemma ltb_trans a b c :
  ltb a b = true -> ltb b c = true -> ltb a c = true.
Proof. revert a b c. intros a b c. sf_order. Qed.

Lemma leb_ltb_trans a b c :
  leb a b = true -> ltb b c = true -> ltb a c = true.
Proof. sf_order. Qed.

Lemma ltb_leb_trans a b c :
  ltb a b = true -> leb b c = true -> ltb a c = true.
Proof. sf_order. Qed.

Lemma ltb_asym a b : ltb a b = true -> ltb b a = false.
Proof. sf_order. Qed.

Lemma ltb_not_leb a b : ltb a b = true -> leb b a = false.
Proof. sf_order. Qed.

Lemma leb_not_ltb a b : leb a b = true -> ltb b a = false.
Proof. sf_order. Qed.

Lemma ltb_leb a b : ltb a b = true -> leb a b = true.
Proof. sf_order. Qed.

Lemma not_ltb_leb a b :
  is_nan a = false -> is_nan b = false -> ltb a b = false -> leb b a = true.
Proof. sf_order. Qed.

Lemma leb_refl a : is_nan a = false -> leb a a = true.
Proof.
  unfold leb, SFleb, SFcompare, is_nan.
  destruct a as [[|] | [|] | | [|] m e]; intros; try discriminate;
    try reflexivity;
    rewrite Z.compare_refl;
    change (Pos.compare_cont Eq m m) with (Pos.compare m m);
    now rewrite Pos.compare_refl.
Qed.

Lemma leb_not_nan_l a b : leb a b = true -> is_nan a = false.
Proof. sf_order. Qed.

Lemma leb_not_nan_r a b : leb a b = true -> is_nan b = false.
Proof. sf_order. Qed.

Lemma ltb_not_nan_l a b : ltb a b = true -> is_nan a = false.
Proof. sf_order. Qed.

Lemma ltb_not_nan_r a b : ltb a b = true -> is_nan b = false.
Proof. sf_order. Qed.

(** Two comparable numbers neither of which is below the other are the
    same number, provided one is finite and not a zero. *)
Lemma incomparable_finite a s m e :
  is_nan a = false ->
  ltb a (S754_finite s m e) = false ->
  ltb (S754_finite s m e) a = false ->
  a = S754_finite s m e.
Proof.
  unfold ltb, SFltb, SFcompare, is_nan.
  destruct a as [[|] | [|] | | [|] ma ea], s; intros; try discriminate;
    cmp_cases; f_equal; lia.
Qed.

(** *** Rounding never produces a NaN *)

Lemma shr_1_nonneg r : 0 <= shr_m r -> 0 <= shr_m (shr_1 r).
Proof. destruct r as [[| [p | p |] | p] rb sb]; cbn; lia. Qed.

Lemma shr_nonneg r e n : 0 <= shr_m r -> 0 <= shr_m (fst (shr r e n)).
Proof.
  intros Hr. destruct n as [| p | p]; cbn [shr fst]; auto.
  rewrite iter_pos_nat.
  induction (Pos.to_nat p) as [| k IH]; cbn [Nat.iter nat_rect]; auto.
  now apply shr_1_nonneg.
Qed.

Lemma shr_fexp_nonneg m e l :
  0 <= m -> 0 <= shr_m (fst (shr_fexp prec emax m e l)).
Proof.
  intros Hm. unfold shr_fexp. apply shr_nonneg.
  destruct l as [| []]; cbn; assumption.
Qed.

Lemma round_nearest_even_nonneg m l : 0 <= m -> 0 <= round_nearest_even m l.
Proof.
  intros Hm. destruct l as [| []]; cbn [round_nearest_even];
    try destruct (Z.even m); lia.
Qed.

Lemma binary_round_aux_not_nan s m e l :
  0 <= m -> is_nan (binary_round_aux prec emax s m e l) = false.
Proof.
  intros Hm. unfold binary_round_aux.
  pose proof (shr_fexp_nonneg m e l Hm) as H1.
  destruct (shr_fexp prec emax m e l) as [mrs' e']. cbn [fst] in H1.
  pose proof (shr_fexp_nonneg _ e' loc_Exact
                (round_nearest_even_nonneg _ (loc_of_shr_record mrs') H1))
    as H2.
  destruct (shr_fexp prec emax _ e' loc_Exact) as [mrs'' e'']. cbn [fst] in H2.
  destruct (shr_m mrs'') as [| p | p]; try lia; try reflexivity.
  now destruct (e'' <=? emax - prec).
Qed.

Lemma div_not_nan x s m e :
  is_nan x = false -> is_nan (div x (S754_finite s m e)) = false.
Proof.
  destruct x as [sx | sx | | sx mx ex]; intros Hx; try discriminate;
    try reflexivity.
  unfold div, SFdiv, SFdiv_core_binary.
  set (m' := match _ with 0 => Z.pos mx | Z.pos _ => _ | Z.neg _ => 0 end).
  assert (Hm' : 0 <= m').
  { subst m'. match goal with |- 0 <= match ?d with _ => _ end => destruct d end;
      try lia. apply Z.shiftl_nonneg. lia. }
  pose proof (Z.div_pos m' (Z.pos m) Hm' ltac:(lia)) as Hq.
  unfold Z.div in Hq.
  destruct (Z.div_eucl m' (Z.pos m)) as [q r]. cbn [fst] in Hq.
  now apply binary_round_aux_not_nan.
Qed.

Lemma mul_not_nan x s m e :
  is_nan x = false -> is_nan (mul x (S754_finite s m e)) = false.
Proof.
  destruct x as [sx | sx | | sx mx ex]; intros Hx; try discriminate;
    try reflexivity.
  unfold mul, SFmul. apply binary_round_aux_not_nan. lia.
Qed.

End B64Facts.

(** ** [np.clip] on scalars *)

Module ClipFacts.
Import B64 B64Facts.

Lemma clip_range x lo hi :
  is_nan x = false -> leb lo hi = true ->
  leb lo (np.clip x lo hi) = true /\ leb (np.clip x lo hi) hi = true.
Proof.
  intros Hx Hlh.
  pose proof (leb_not_nan_l _ _ Hlh) as Hlo.
  pose proof (leb_not_nan_r _ _ Hlh) as Hhi.
  unfold np.clip, np.maximum, np.minimum. rewrite Hx.
  destruct (ltb lo x) eqn:E1.
  - rewrite Hx. destruct (ltb x hi) eqn:E2.
    + split; now apply ltb_leb.
    + split; [assumption | now apply leb_refl].
  - rewrite Hlo. destruct (ltb lo hi) eqn:E2.
    + split; [now apply leb_refl | assumption].
    + split; [assumption | now apply leb_refl].
Qed.

(** [np.clip] is the specification's clamp on every number that is not a
    NaN, for finite non-zero bounds [lo < hi]. *)
Lemma clip_spec_clamp x sl ml el sh mh eh :
  is_nan x = false ->
  ltb (S754_finite sl ml el) (S754_finite sh mh eh) = true ->
  np.clip x (S754_finite sl ml el) (S754_finite sh mh eh)
  = spec_clamp x (S754_finite sl ml el) (S754_finite sh mh eh).
Proof.
  set (lo := S754_finite sl ml el). set (hi := S754_finite sh mh eh).
  intros Hx Hlh.
  unfold np.clip, np.maximum, np.minimum, spec_clamp. rewrite Hx.
  destruct (ltb x lo) eqn:E1.
  - rewrite (ltb_asym _ _ E1). cbn [is_nan lo]. now rewrite Hlh.
  - destruct (ltb hi x) eqn:E2.
    + rewrite (ltb_trans _ _ _ Hlh E2), Hx, (ltb_asym _ _ E2). reflexivity.
    + destruct (ltb lo x) eqn:E3.
      * rewrite Hx. destruct (ltb x hi) eqn:E4; [reflexivity |].
        symmetry. now apply incomparable_finite.
      * cbn [is_nan lo]. fold lo. rewrite Hlh.
        symmetry. now apply incomparable_finite.
Qed.

End ClipFacts.

(** ** Slicing *)

Module SliceFacts.

Ltac adjust_cases :=
  unfold np.slice_bounds, np.adjust_index in *;
  repeat match goal with
    | |- context [?a <? ?b] => destruct (Z.ltb_spec a b)
    | |- context [?a <=? ?b] => destruct (Z.leb_spec a b)
    | H : context [?a <? ?b] |- _ => destruct (Z.ltb_spec a b)
    | H : context [?a <=? ?b] |- _ => destruct (Z.leb_spec a b)
    end.

Lemma len_nonneg {A} (l : list A) : 0 <= len l.
Proof. unfold len. lia. Qed.

(** Both resolved bounds of a slice lie inside the sequence. *)
Lemma adjust_index_range i n : 0 <= n -> 0 <= np.adjust_index i n <= n.
Proof. intros Hn. adjust_cases; lia. Qed.

Lemma slice_len {A} (start stop : Z) (l : list A) :
  len (np.slice start stop l)
  = Z.max 0 (np.adjust_index stop (len l) - np.adjust_index start (len l)).
Proof.
  pose proof (len_nonneg l) as Hl.
  pose proof (adjust_index_range start (len l) Hl) as Ha.
  pose proof (adjust_index_range stop (len l) Hl) as Hb.
  unfold np.slice, np.slice_bounds, len in *.
  rewrite length_firstn, length_skipn. lia.
Qed.

(** A slice that already lies inside the sequence is the plain window. *)
Lemma slice_window {A} (a k : Z) (l : list A) :
  0 <= a -> 0 <= k -> a + k <= len l ->
  np.slice a (a + k) l = firstn (Z.to_nat k) (skipn (Z.to_nat a) l).
Proof.
  intros Ha Hk Hl. unfold np.slice, np.slice_bounds.
  replace (np.adjust_index (a + k) (len l)) with (a + k) by (adjust_cases; lia).
  replace (np.adjust_index a (len l)) with a by (adjust_cases; lia).
  do 2 f_equal. lia.
Qed.

Lemma firstn_repeat {A} (x : A) k n :
  firstn k (repeat x n) = repeat x (Nat.min k n).
Proof.
  revert n; induction k as [| k IH]; intros [| n]; cbn; try reflexivity.
  now rewrite IH.
Qed.

Lemma skipn_repeat {A} (x : A) k n :
  skipn k (repeat x n) = repeat x (n - k).
Proof.
  revert n; induction k as [| k IH]; intros [| n]; cbn; try reflexivity.
  now rewrite IH.
Qed.

Lemma slice_repeat {A} (x : A) start stop n :
  np.slice start stop (repeat x n)
  = repeat x (Z.to_nat (len (np.slice start stop (repeat x n)))).
Proof.
  unfold np.slice. destruct (np.slice_bounds _ _ _) as [a b] eqn:E.
  rewrite skipn_repeat, firstn_repeat. f_equal.
  unfold len. rewrite repeat_length. lia.
Qed.

Lemma ravel_flat h w c : np.ravel (flat h w c) = repeat c (h * w).
Proof.
  unfold np.ravel, flat. induction h as [| h IH]; cbn; [reflexivity |].
  now rewrite IH, repeat_app.
Qed.

Lemma slice2_flat h w c r0 r1 c0 c1 :
  np.slice2 (flat h w c) r0 r1 c0 c1
  = flat (Z.to_nat (len (np.slice r0 r1 (repeat (repeat c w) h))))
         (Z.to_nat (len (np.slice c0 c1 (repeat c w)))) c.
Proof.
  unfold np.slice2, flat.
  set (k := Z.to_nat (len (np.slice r0 r1 (repeat (repeat c w) h)))).
  set (j := Z.to_nat (len (np.slice c0 c1 (repeat c w)))).
  rewrite (slice_repeat (repeat c w) r0 r1 h). fold k.
  rewrite map_repeat, (slice_repeat c c0 c1 w). fold j.
  reflexivity.
Qed.

End SliceFacts.

(** ** The stand-in NumPy on constant data *)

Module ReduceFacts.
Import B64 B64Facts SliceFacts.

Lemma fold_add_repeat c k a :
  0 <= a -> 0 <= c -> a + c * Z.of_nat k < 2 ^ 53 ->
  fold_left add (repeat (of_Z c) k) (of_Z a) = of_Z (a + c * Z.of_nat k).
Proof.
  revert a; induction k as [| k IH]; intros a Ha Hc Hb.
  - cbn. f_equal. lia.
  - cbn [repeat fold_left]. rewrite add_of_Z by nia.
    rewrite IH by nia. f_equal. lia.
Qed.

Lemma sum_repeat c k :
  0 <= c -> c * Z.of_nat k < 2 ^ 53 ->
  NpDouble.sum (repeat (of_Z c) k) = of_Z (c * Z.of_nat k).
Proof.
  intros Hc Hb. unfold NpDouble.sum. change pzero with (of_Z 0).
  now rewrite fold_add_repeat by lia.
Qed.

(** The mean of [n] copies of an integer is that integer, exactly. *)
Lemma mean_repeat c n :
  0 <= c -> (0 < n)%nat -> Z.of_nat n < 2 ^ 53 ->
  c * Z.of_nat n < 2 ^ 53 ->
  NpDouble.mean (repeat (of_Z c) n) = of_Z c.
Proof.
  intros Hc Hn Hn53 Hb. unfold NpDouble.mean, len.
  rewrite sum_repeat, repeat_length by assumption.
  apply div_of_Z; lia.
Qed.

(** The standard deviation of constant data is [+0.0]. *)
Lemma std_repeat c n :
  0 <= c -> (0 < n)%nat -> Z.of_nat n < 2 ^ 53 ->
  c * Z.of_nat n < 2 ^ 53 ->
  NpDouble.std (repeat c n) = pzero.
Proof.
  intros Hc Hn Hn53 Hb. unfold NpDouble.std.
  rewrite map_repeat, mean_repeat by assumption.
  rewrite !map_repeat.
  rewrite sub_of_Z_diag by nia.
  change (mul pzero pzero) with (of_Z 0).
  rewrite mean_repeat by lia.
  reflexivity.
Qed.

Lemma std_ravel_flat h w c :
  (0 < h)%nat -> (0 < w)%nat -> 0 <= c <= 255 ->
  Z.of_nat h * Z.of_nat w <= 2 ^ 32 ->
  NpDouble.std (np.ravel (flat h w c)) = pzero.
Proof.
  intros Hh Hw Hc Hb. rewrite ravel_flat.
  apply std_repeat; nia.
Qed.

End ReduceFacts.



Module PercentileFacts.
Import B64 B64Facts SliceFacts.

Lemma sort_repeat c n : NpDouble.sort (repeat c n) = repeat c n.
Proof.
  induction n as [| n IH]; cbn [repeat NpDouble.sort]; [reflexivity |].
  rewrite IH. destruct n; cbn [repeat NpDouble.insert]; [reflexivity |].
  now rewrite Z.leb_refl.
Qed.

Lemma lerp_weights_checked : lerp_weights_ok = true.
Proof. vm_compute. reflexivity. Qed.

Lemma lerp_weight r :
  0 <= r < 100 ->
  finite_nonneg (dec r 100) = true /\
  finite_nonneg (sub (of_Z 1) (dec r 100)) = true.
Proof.
  intros Hr. pose proof lerp_weights_checked as H.
  unfold lerp_weights_ok in H. rewrite forallb_forall in H.
  apply andb_prop, H.
  replace r with (Z.of_nat (Z.to_nat r)) by lia.
  apply in_map, in_seq. lia.
Qed.

Lemma mul_pzero t : finite_nonneg t = true -> mul pzero t = pzero.
Proof. destruct t as [[|] | | | [|] m e]; intros; try discriminate; reflexivity. Qed.

Lemma add_pzero_r c : 0 <= c < 2 ^ 53 -> add (of_Z c) pzero = of_Z c.
Proof.
  intros Hc. destruct (Z.eq_dec c 0) as [-> | Hc0]; [reflexivity |].
  rewrite of_Z_canon by lia. reflexivity.
Qed.

Lemma sub_pzero_r c : 0 <= c < 2 ^ 53 -> sub (of_Z c) pzero = of_Z c.
Proof.
  intros Hc. destruct (Z.eq_dec c 0) as [-> | Hc0]; [reflexivity |].
  rewrite of_Z_canon by lia. reflexivity.
Qed.

(** Interpolating between two equal samples gives that sample. *)
Lemma lerp_same c r :
  0 <= c < 2 ^ 53 -> 0 <= r < 100 ->
  NpDouble.lerp c c (dec r 100) = of_Z c.
Proof.
  intros Hc Hr. destruct (lerp_weight r Hr) as [Ht H1t].
  unfold NpDouble.lerp. rewrite Z.sub_diag. change (of_Z 0) with pzero.
  rewrite !mul_pzero by assumption.
  rewrite add_pzero_r, sub_pzero_r by assumption.
  now destruct (leb (dec 1 2) (dec r 100)).
Qed.

Lemma percentile_repeat c n q :
  (0 < n)%nat -> 0 <= c < 2 ^ 53 -> 0 <= q <= 100 ->
  NpDouble.percentile (repeat c n) q = Ok (of_Z c).
Proof.
  intros Hn Hc Hq. unfold NpDouble.percentile.
  destruct (repeat c n) eqn:E; [destruct n; [lia | discriminate] |].
  rewrite <- E. clear E. rewrite sort_repeat. unfold len. rewrite repeat_length.
  set (p := q * (Z.of_nat n - 1)).
  assert (Hi : 0 <= p / 100 <= Z.of_nat n - 1).
  { split; [apply Z.div_pos; subst p; nia |].
    apply Z.div_le_upper_bound; subst p; nia. }
  rewrite !nth_repeat_lt by lia.
  f_equal. apply lerp_same; [assumption | apply Z.mod_pos_bound; lia].
Qed.

End PercentileFacts.


(** ** The stand-in NumPy meets the laws *)

Module DoubleFacts.
Import B64 B64Facts SliceFacts ReduceFacts PercentileFacts.

Lemma ravel_nonempty img w :
  rect w img -> 0 < len img -> 0 < w -> np.ravel img <> [].
Proof.
  intros Hrect Hh Hw. destruct img as [| r rows]; [cbn in Hh; lia |].
  inversion Hrect as [| ? ? Hr _]; subst.
  destruct r as [| x r]; [cbn in Hw; lia |]. discriminate.
Qed.

Lemma np_double_laws : NumPyLaws np_double.
Proof.
  split.
  - intros img w q Hrect Hh Hw Hq. cbn [np_percentile np_double].
    pose proof (ravel_nonempty img w Hrect Hh Hw) as Hne.
    unfold NpDouble.percentile. destruct (np.ravel img); [congruence | eauto].
  - intros img q E. cbn [np_percentile np_double]. rewrite E.
    cbn [NpDouble.percentile]. eauto.
  - intros h w c q Hh Hw Hc Hq. cbn [np_percentile np_double].
    rewrite ravel_flat. apply percentile_repeat; [nia | lia | assumption].
  - intros h w c Hh Hw Hc Hb. cbn [np_std np_double].
    now apply std_ravel_flat.
  - intros n Hn Hb. cbn [np_mean np_double]. change pzero with (of_Z 0).
    apply mean_repeat; lia.
Qed.

End DoubleFacts.
(** ** The eight noise patches *)

Module PatchFacts.
Import B64 B64Facts SliceFacts.

Lemma shape_flat h w c :
  (0 < h)%nat -> shape (flat h w c) = (Z.of_nat h, Z.of_nat w).
Proof.
  intros Hh. destruct h as [| h]; [lia |].
  unfold shape, flat, len. cbn [repeat]. cbn [List.length].
  now rewrite !repeat_length.
Qed.

(** On a sequence of [n >= 1] items each of the three ranges the patches
    use keeps between 1 and 40 items. *)
Lemma patch_extent n start stop :
  1 <= n ->
  (start = 0 /\ stop = 40) \/
  (start = n - 40 /\ stop = n) \/
  (start = n / 2 - 20 /\ stop = n / 2 + 20) ->
  1 <= Z.max 0 (np.adjust_index stop n - np.adjust_index start n) <= 40
  /\ Z.max 0 (np.adjust_index stop n - np.adjust_index start n) <= n.
Proof.
  intros Hn Hr.
  assert (Hq : 2 * (n / 2) <= n < 2 * (n / 2) + 2).
  { pose proof (Z.div_mod n 2 ltac:(lia)).
    pose proof (Z.mod_pos_bound n 2 ltac:(lia)). lia. }
  revert Hq Hr. generalize (n / 2). intros q Hq.
  intros [[-> ->] | [[-> ->] | [-> ->]]]; adjust_cases; lia.
Qed.

Lemma repeat_extent {A} (x : A) n start stop :
  (0 < n)%nat ->
  (start = 0 /\ stop = 40) \/
  (start = Z.of_nat n - 40 /\ stop = Z.of_nat n) \/
  (start = Z.of_nat n / 2 - 20 /\ stop = Z.of_nat n / 2 + 20) ->
  (1 <= Z.to_nat (len (np.slice start stop (repeat x n))) <= 40)%nat.
Proof.
  intros Hn Hr. rewrite slice_len. unfold len. rewrite repeat_length.
  pose proof (patch_extent (Z.of_nat n) start stop ltac:(lia) Hr). lia.
Qed.

Section Laws.
Context {numpy : NumPy} {laws : NumPyLaws numpy}.

Lemma std_patch kr kc c :
  (1 <= kr <= 40)%nat -> (1 <= kc <= 40)%nat -> 0 <= c <= 255 ->
  np_std (flat kr kc c) = pzero.
Proof. intros Hr Hk Hc. apply std_flat; nia. Qed.

(** A constant image has noise level [+0.0]. *)
Lemma noise_level_flat h w c :
  (0 < h)%nat -> (0 < w)%nat -> 0 <= c <= 255 ->
  noise_level (flat h w c) = pzero.
Proof.
  intros Hh Hw Hc. unfold noise_level, patches.
  rewrite shape_flat by assumption.
  unfold patch_size. change (40 / 2) with 20.
  cbn [map]. rewrite !slice2_flat.
  rewrite !std_patch by (try assumption; apply repeat_extent; auto).
  apply (mean_zeros 8); [lia | reflexivity || (cbn; lia)].
Qed.

(** A constant 8-bit image has contrast [+0.0]. *)
Lemma contrast_flat h w c :
  (0 < h)%nat -> (0 < w)%nat -> 0 <= c <= 255 ->
  contrast (flat h w c) = Ok pzero.
Proof.
  intros Hh Hw Hc. unfold contrast.
  rewrite !percentile_flat by (assumption || lia).
  cbn [rbind]. f_equal. apply sub_of_Z_diag. lia.
Qed.

(** The contrast of a non-empty image is defined. *)
Lemma contrast_defined img w :
  rect w img -> 0 < len img -> 0 < w -> exists c, contrast img = Ok c.
Proof.
  intros Hrect Hh Hw. unfold contrast.
  destruct (percentile_defined img w 99 Hrect Hh Hw ltac:(lia)) as [p99 ->].
  destruct (percentile_defined img w 1 Hrect Hh Hw ltac:(lia)) as [p1 ->].
  cbn [rbind]. eauto.
Qed.

End Laws.

End PatchFacts.

(** ** Patch geometry on arbitrary images *)

Module GeometryFacts.
Import SliceFacts PatchFacts.

Lemma Forall_firstn {A} (P : A -> Prop) n l :
  Forall P l -> Forall P (firstn n l).
Proof.
  intros H. rewrite <- (firstn_skipn n l) in H.
  now apply Forall_app in H.
Qed.

Lemma Forall_skipn {A} (P : A -> Prop) n l :
  Forall P l -> Forall P (skipn n l).
Proof.
  intros H. rewrite <- (firstn_skipn n l) in H.
  now apply Forall_app in H.
Qed.

Lemma shape_rect img w :
  rect w img -> 0 < len img -> shape img = (len img, w).
Proof.
  intros Hr Hl. destruct img as [| r t]; [cbn in Hl; lia |].
  unfold shape. f_equal. now inversion Hr.
Qed.

(** A slice is the block between its resolved bounds, which lies inside
    the sequence. *)
Lemma slice_block {A} start stop (l : list A) :
  let a := np.adjust_index start (len l) in
  let k := len (np.slice start stop l) in
  np.slice start stop l = firstn (Z.to_nat k) (skipn (Z.to_nat a) l)
  /\ 0 <= a /\ 0 <= k /\ a + k <= len l.
Proof.
  cbn zeta. pose proof (len_nonneg l) as Hl.
  pose proof (adjust_index_range start (len l) Hl).
  pose proof (adjust_index_range stop (len l) Hl).
  rewrite slice_len. split; [| lia].
  unfold np.slice, np.slice_bounds. f_equal. lia.
Qed.

Lemma slice2_block img w r0 r1 c0 c1 :
  rect w img -> 0 <= w ->
  let r := np.adjust_index r0 (len img) in
  let c := np.adjust_index c0 w in
  let nr := Z.max 0 (np.adjust_index r1 (len img) - r) in
  let nc := Z.max 0 (np.adjust_index c1 w - c) in
  np.slice2 img r0 r1 c0 c1
  = block img (Z.to_nat r) (Z.to_nat c) (Z.to_nat nr) (Z.to_nat nc)
  /\ 0 <= r /\ r + nr <= len img /\ 0 <= c /\ c + nc <= w.
Proof.
  intros Hr Hw. cbn zeta.
  destruct (slice_block r0 r1 img) as (Hs & Ha & Hk & Hb).
  rewrite slice_len in Hs, Hk, Hb.
  pose proof (adjust_index_range c0 w Hw).
  pose proof (adjust_index_range c1 w Hw).
  split; [| lia].
  unfold np.slice2, block. rewrite Hs.
  apply map_ext_Forall.
  apply Forall_firstn, Forall_skipn.
  eapply Forall_impl; [| exact Hr]. cbn beta. intros row Hrow.
  unfold np.slice, np.slice_bounds. rewrite Hrow. f_equal. lia.
Qed.

Lemma block_shape img w r c nr nc :
  rect w img ->
  Z.of_nat r + Z.of_nat nr <= len img ->
  Z.of_nat c + Z.of_nat nc <= w ->
  len (block img r c nr nc) = Z.of_nat nr /\
  rect (Z.of_nat nc) (block img r c nr nc).
Proof.
  intros Hr Hh Hw. unfold block, len in *. split.
  - rewrite length_map, length_firstn, length_skipn. lia.
  - unfold rect. rewrite Forall_map.
    apply Forall_firstn, Forall_skipn.
    eapply Forall_impl; [| exact Hr]. cbn beta. intros row Hrow.
    unfold len in *. rewrite length_firstn, length_skipn. lia.
Qed.

(** A slice of 40 rows and 40 columns that fits in the image is the spec's
    window. *)
Lemma slice2_window img w r0 r1 c0 c1 :
  rect w img ->
  0 <= r0 -> r1 = r0 + 40 -> r1 <= len img ->
  0 <= c0 -> c1 = c0 + 40 -> c1 <= w ->
  np.slice2 img r0 r1 c0 c1 = window img r0 c0.
Proof.
  intros Hr Hr0 -> Hr1 Hc0 -> Hc1.
  destruct (slice2_block img w r0 (r0 + 40) c0 (c0 + 40) Hr ltac:(lia))
    as (Hs & _).
  rewrite Hs. unfold window.
  replace (np.adjust_index r0 (len img)) with r0 by (adjust_cases; lia).
  replace (np.adjust_index (r0 + 40) (len img)) with (r0 + 40)
    by (adjust_cases; lia).
  replace (np.adjust_index c0 w) with c0 by (adjust_cases; lia).
  replace (np.adjust_index (c0 + 40) w) with (c0 + 40)
    by (adjust_cases; lia).
  f_equal; lia.
Qed.

Lemma half_bounds n : 2 * (n / 2) <= n < 2 * (n / 2) + 2.
Proof.
  pose proof (Z.div_mod n 2 ltac:(lia)).
  pose proof (Z.mod_pos_bound n 2 ltac:(lia)). lia.
Qed.

(** On an image of at least 40x40 samples the code's slices are the
    spec's windows. *)
Lemma patches_spec img w :
  rect w img -> 40 <= len img -> 40 <= w ->
  patches img = spec_patches img (len img) w.
Proof.
  intros Hr Hh Hw. unfold patches, spec_patches.
  rewrite (shape_rect img w Hr) by lia.
  unfold patch_size. change (40 / 2) with 20.
  pose proof (half_bounds (len img)). pose proof (half_bounds w).
  repeat (apply f_equal2;
          [apply (slice2_window img w); (assumption || lia) |]).
  reflexivity.
Qed.

End GeometryFacts.

(** ** Parameter policy (lines 61, 69, 78-85) *)

Module PolicyFacts.
Import B64 B64Facts ClipFacts.

Lemma strength_values s :
  strength s = of_Z 2 \/ strength s = dec 17 10 \/
  strength s = dec 7 10 \/ strength s = dec 11 10.
Proof.
  unfold strength.
  destruct (ltb s (of_Z 20)); [now left |].
  destruct (ltb s (of_Z 80)); [now right; left |].
  destruct (ltb (of_Z 300) s); [now right; right; left | now right; right; right].
Qed.

Lemma nonneg_not_nan x : leb pzero x = true -> is_nan x = false.
Proof. apply leb_not_nan_r. Qed.

Lemma clahe_clip_range c :
  is_nan c = false ->
  leb (of_Z 1) (clahe_clip c) = true /\ leb (clahe_clip c) (of_Z 3) = true.
Proof.
  intros Hc. unfold clahe_clip. apply clip_range; [| reflexivity].
  destruct (of_Z 40) as [| | | s m e] eqn:E; try discriminate E.
  now apply div_not_nan.
Qed.

Lemma denoise_strength_range n :
  is_nan n = false ->
  leb (of_Z 5) (denoise_strength n) = true /\
  leb (denoise_strength n) (of_Z 15) = true.
Proof.
  intros Hn. unfold denoise_strength. apply clip_range; [| reflexivity].
  destruct (dec 6 10) as [| | | s m e] eqn:E; try (vm_compute in E; discriminate E).
  now apply mul_not_nan.
Qed.

End PolicyFacts.

(** ** The claims *)

(** C2. For every non-negative sharpness the sharpening strength is given
    piecewise: below 20 it is 2.0, from 20 (included) to 80 (excluded) it is
    1.7, above 300 it is 0.7 and from 80 to 300 (both included) it is 1.1;
    the four cases cover every non-negative sharpness, and 19.99, 20.0,
    79.99, 80.0, 300.0, 300.01 give 2.0, 1.7, 1.7, 1.1, 1.1, 0.7. *)
Theorem C2_strength_piecewise (sharpness : float) :
  B64.leb B64.pzero sharpness = true ->
  (B64.ltb sharpness (B64.of_Z 20) = true ->
   strength sharpness = B64.of_Z 2) /\
  (B64.leb (B64.of_Z 20) sharpness = true ->
   B64.ltb sharpness (B64.of_Z 80) = true ->
   strength sharpness = B64.dec 17 10) /\
  (B64.ltb (B64.of_Z 300) sharpness = true ->
   strength sharpness = B64.dec 7 10) /\
  (B64.leb (B64.of_Z 80) sharpness = true ->
   B64.leb sharpness (B64.of_Z 300) = true ->
   strength sharpness = B64.dec 11 10) /\
  (B64.ltb sharpness (B64.of_Z 20) = true \/
   (B64.leb (B64.of_Z 20) sharpness = true /\
    B64.ltb sharpness (B64.of_Z 80) = true) \/
   B64.ltb (B64.of_Z 300) sharpness = true \/
   (B64.leb (B64.of_Z 80) sharpness = true /\
    B64.leb sharpness (B64.of_Z 300) = true)) /\
  strength (B64.dec 1999 100) = B64.of_Z 2 /\
  strength (B64.of_Z 20) = B64.dec 17 10 /\
  strength (B64.dec 7999 100) = B64.dec 17 10 /\
  strength (B64.of_Z 80) = B64.dec 11 10 /\
  strength (B64.of_Z 300) = B64.dec 11 10 /\
  strength (B64.dec 30001 100) = B64.dec 7 10.
Proof.
  intros Hs. pose proof (PolicyFacts.nonneg_not_nan _ Hs) as Hnan.
  split; [| split; [| split; [| split; [| split]]]].
  - intros H. unfold strength. now rewrite H.
  - intros H1 H2. unfold strength.
    now rewrite (B64Facts.leb_not_ltb _ _ H1), H2.
  - intros H. unfold strength.
    destruct (B64.ltb sharpness (B64.of_Z 20)) eqn:E1.
    { pose proof (B64Facts.ltb_trans _ _ _ H E1) as F.
      vm_compute in F. discriminate F. }
    destruct (B64.ltb sharpness (B64.of_Z 80)) eqn:E2.
    { pose proof (B64Facts.ltb_trans _ _ _ H E2) as F.
      vm_compute in F. discriminate F. }
    now rewrite H.
  - intros H1 H2. unfold strength.
    destruct (B64.ltb sharpness (B64.of_Z 20)) eqn:E1.
    { pose proof (B64Facts.leb_ltb_trans _ _ _ H1 E1) as F.
      vm_compute in F. discriminate F. }
    now rewrite (B64Facts.leb_not_ltb _ _ H1), (B64Facts.leb_not_ltb _ _ H2).
  - destruct (B64.ltb sharpness (B64.of_Z 20)) eqn:E1; [now left | right].
    pose proof (B64Facts.not_ltb_leb sharpness (B64.of_Z 20) Hnan eq_refl E1)
      as L20.
    destruct (B64.ltb sharpness (B64.of_Z 80)) eqn:E2; [now left | right].
    pose proof (B64Facts.not_ltb_leb sharpness (B64.of_Z 80) Hnan eq_refl E2)
      as L80.
    destruct (B64.ltb (B64.of_Z 300) sharpness) eqn:E3; [now left | right].
    split; [assumption |].
    exact (B64Facts.not_ltb_leb (B64.of_Z 300) sharpness eq_refl Hnan E3).
  - repeat apply conj; vm_compute; reflexivity.
Qed.

Lemma C2_strength_piecewise_witness :
  strength (B64.of_Z 50) = B64.dec 17 10.
Proof.
  apply (proj1 (proj2 (C2_strength_piecewise (B64.of_Z 50) eq_refl)));
    reflexivity.
Defined.

(** C5. For every non-negative contrast, the CLAHE clip limit is
    clamp(contrast / 40, 1.0, 3.0) and lies in [1.0, 3.0]; contrast 0 gives
    1.0 and contrast 1000 gives 3.0. *)
Theorem C5_clahe_clip_clamped (c : float) :
  B64.leb B64.pzero c = true ->
  clahe_clip c
  = spec_clamp (B64.div c (B64.of_Z 40)) (B64.of_Z 1) (B64.of_Z 3) /\
  B64.leb (B64.of_Z 1) (clahe_clip c) = true /\
  B64.leb (clahe_clip c) (B64.of_Z 3) = true /\
  clahe_clip (B64.of_Z 0) = B64.of_Z 1 /\
  clahe_clip (B64.of_Z 1000) = B64.of_Z 3.
Proof.
  intros Hc. pose proof (PolicyFacts.nonneg_not_nan _ Hc) as Hnan.
  split; [| split; [| split; [| split]]].
  - unfold clahe_clip.
    destruct (B64.of_Z 40) as [| | | s m e] eqn:E40; try discriminate E40.
    destruct (B64.of_Z 1) as [| | | s1 m1 e1] eqn:E1; try discriminate E1.
    destruct (B64.of_Z 3) as [| | | s3 m3 e3] eqn:E3; try discriminate E3.
    apply ClipFacts.clip_spec_clamp.
    + now apply B64Facts.div_not_nan.
    + rewrite <- E1, <- E3. reflexivity.
  - now apply PolicyFacts.clahe_clip_range.
  - now apply PolicyFacts.clahe_clip_range.
  - vm_compute. reflexivity.
  - vm_compute. reflexivity.
Qed.

Lemma C5_clahe_clip_clamped_witness :
  clahe_clip (B64.of_Z 80) = B64.of_Z 2.
Proof.
  rewrite (proj1 (C5_clahe_clip_clamped (B64.of_Z 80) eq_refl)).
  vm_compute. reflexivity.
Defined.

(** C6. For every non-negative noise level, the denoising strength is
    clamp(noiseLevel * 0.6, 5.0, 15.0) and lies in [5.0, 15.0]; a constant
    8-bit image has noise level 0 and denoising strength 5.0. *)
Theorem C6_denoise_strength_clamped (numpy : NumPy) (laws : NumPyLaws numpy)
        (n : float) :
  B64.leb B64.pzero n = true ->
  denoise_strength n
  = spec_clamp (B64.mul n (B64.dec 6 10)) (B64.of_Z 5) (B64.of_Z 15) /\
  B64.leb (B64.of_Z 5) (denoise_strength n) = true /\
  B64.leb (denoise_strength n) (B64.of_Z 15) = true /\
  (forall (h w : nat) (c : Z),
      (0 < h)%nat -> (0 < w)%nat -> 0 <= c <= 255 ->
      noise_level (flat h w c) = B64.pzero /\
      denoise_strength (noise_level (flat h w c)) = B64.of_Z 5).
Proof.
  intros Hn. pose proof (PolicyFacts.nonneg_not_nan _ Hn) as Hnan.
  split; [| split; [| split]].
  - unfold denoise_strength.
    destruct (B64.dec 6 10) as [| | | s m e] eqn:E6;
      try (vm_compute in E6; discriminate E6).
    destruct (B64.of_Z 5) as [| | | s1 m1 e1] eqn:E1; try discriminate E1.
    destruct (B64.of_Z 15) as [| | | s3 m3 e3] eqn:E3; try discriminate E3.
    apply ClipFacts.clip_spec_clamp.
    + now apply B64Facts.mul_not_nan.
    + rewrite <- E1, <- E3. reflexivity.
  - now apply PolicyFacts.denoise_strength_range.
  - now apply PolicyFacts.denoise_strength_range.
  - intros h w c Hh Hw Hc.
    rewrite PatchFacts.noise_level_flat by assumption.
    split; [reflexivity | vm_compute; reflexivity].
Qed.

Lemma C6_denoise_strength_clamped_witness :
  denoise_strength (B64.of_Z 10) = B64.mul (B64.of_Z 10) (B64.dec 6 10) /\
  @noise_level np_double (flat 2 3 7) = B64.pzero.
Proof.
  pose proof (C6_denoise_strength_clamped np_double DoubleFacts.np_double_laws
                (B64.of_Z 10) eq_refl)
    as (Heq & _ & _ & Hflat).
  split.
  - rewrite Heq. vm_compute. reflexivity.
  - apply (Hflat 2%nat 3%nat 7); lia.
Defined.



(** C3. On an image of at least 40x40 samples the noise level is the mean,
    over exactly eight 40x40 patches (the four corners, the vertical
    midpoints of the left and right edges, the horizontal midpoints of the
    top and bottom edges, centred by floor division), of the standard
    deviation of each patch, and that is the noise level among the metrics
    of the image; when the height (width) is exactly 40 the edge patches
    span the full height (width). *)
Theorem C3_noise_level_eight_patches (numpy : NumPy) (img : image) (w : Z) :
  rect w img -> 40 <= len img -> 40 <= w ->
  patches img = spec_patches img (len img) w /\
  noise_level img = np_mean (map np_std (spec_patches img (len img) w)) /\
  (forall (cv : Cv2) (m : metrics),
      estimate_metrics img = Ok m ->
      m_noise_level m
      = np_mean (map np_std (spec_patches img (len img) w))) /\
  List.length (spec_patches img (len img) w) = 8%nat /\
  Forall (fun p => len p = 40 /\ rect 40 p) (spec_patches img (len img) w) /\
  (len img = 40 ->
   forall c, window img (len img / 2 - 20) c
             = block img 0 (Z.to_nat c) (List.length img) 40) /\
  (w = 40 ->
   forall r, window img r (w / 2 - 20)
             = map (firstn 40) (firstn 40 (skipn (Z.to_nat r) img))).
Proof.
  intros Hr Hh Hw.
  pose proof (GeometryFacts.patches_spec img w Hr Hh Hw) as Hp.
  pose proof (GeometryFacts.half_bounds (len img)) as Hh2.
  pose proof (GeometryFacts.half_bounds w) as Hw2.
  split; [exact Hp |].
  split; [unfold noise_level; now rewrite Hp |].
  split.
  { intros cv m Hm. unfold estimate_metrics in Hm.
    destruct (contrast img) as [c |]; [| discriminate Hm].
    cbn [rbind] in Hm.
    destruct (Laplacian_var img) as [s |]; [| discriminate Hm].
    cbn [rbind] in Hm. injection Hm as <-. cbn [m_noise_level].
    unfold noise_level. now rewrite Hp. }
  split; [reflexivity |].
  split.
  - unfold spec_patches, window.
    repeat (apply Forall_cons;
            [replace 40 with (Z.of_nat 40) at 3 4 by reflexivity;
             apply (GeometryFacts.block_shape img w); (assumption || lia) |]).
    apply Forall_nil.
  - split.
    + intros H40 c. unfold window.
      replace (len img / 2 - 20) with 0 by lia.
      f_equal. unfold len in H40. lia.
    + intros H40 r. unfold window, block.
      now replace (w / 2 - 20) with 0 by lia.
Qed.

Lemma C3_noise_level_eight_patches_witness :
  patches (flat 40 41 9)
  = spec_patches (flat 40 41 9) (len (flat 40 41 9)) 41.
Proof.
  refine (proj1 (C3_noise_level_eight_patches np_double
                   (flat 40 41 9) 41 _ _ _)).
  - unfold rect, flat. apply Forall_forall. intros r Hin.
    apply repeat_spec in Hin. subst r. reflexivity.
  - vm_compute. discriminate.
  - lia.
Defined.

(** C1 (as the code behaves). On an image with fewer than 40 rows or fewer
    than 40 columns the metric estimation does not refuse: it fails only when
    the Laplacian filter itself fails and otherwise returns the metrics.
    Every patch is a block that lies inside the image (slicing clamps the
    bounds, nothing outside the image is read), and has fewer than 40 rows
    or fewer than 40 columns. *)
Theorem C1_small_image_patches_clamped (numpy : NumPy)
        (laws : NumPyLaws numpy) (cv : Cv2) (img : image) (w : Z) :
  rect w img -> 0 < len img -> 0 < w -> len img < 40 \/ w < 40 ->
  (exists c, contrast img = Ok c /\
     forall s, Laplacian_var img = Ok s ->
               estimate_metrics img
               = Ok {| m_contrast := c;
                       m_sharpness := s;
                       m_noise_level := noise_level img |}) /\
  (forall e, Laplacian_var img = Raise e -> estimate_metrics img = Raise e) /\
  Forall (fun p => exists r c nr nc : nat,
              p = block img r c nr nc /\
              Z.of_nat r + Z.of_nat nr <= len img /\
              Z.of_nat c + Z.of_nat nc <= w /\
              (1 <= nr)%nat /\ (1 <= nc)%nat /\
              ((nr < 40)%nat \/ (nc < 40)%nat))
         (patches img).
Proof.
  intros Hr Hh Hw Hsmall.
  destruct (PatchFacts.contrast_defined img w Hr Hh Hw) as [c Ec].
  split; [| split].
  - exists c. split; [exact Ec |].
    intros s Hs. unfold estimate_metrics. now rewrite Ec, Hs.
  - intros e He. unfold estimate_metrics. now rewrite Ec, He.
  - unfold patches. rewrite (GeometryFacts.shape_rect img w Hr Hh).
    unfold patch_size. change (40 / 2) with 20.
    repeat (apply Forall_cons;
      [ match goal with
        | |- exists _ _ _ _, np.slice2 _ ?r0 ?r1 ?c0 ?c1 = _ /\ _ =>
            destruct (GeometryFacts.slice2_block img w r0 r1 c0 c1 Hr
                        ltac:(lia)) as (Hs & Hb1 & Hb2 & Hb3 & Hb4);
            pose proof (PatchFacts.patch_extent (len img) r0 r1 ltac:(lia)
                          ltac:(auto)) as [He1 He2];
            pose proof (PatchFacts.patch_extent w c0 c1 ltac:(lia)
                          ltac:(auto)) as [He3 He4];
            eexists _, _, _, _; split; [exact Hs | lia]
        end |]).
    apply Forall_nil.
Qed.

(** C1, refuted as stated: a 30x30 image is accepted.  The estimation
    returns metrics for it, computed on patches as small as 5x10. *)
Lemma C1_small_image_accepted :
  shape (flat 30 30 100) = (30, 30) /\
  map shape (patches (flat 30 30 100))
  = [(30, 30); (30, 10); (10, 30); (10, 10);
     (5, 30); (5, 10); (30, 5); (10, 5)] /\
  forall (numpy : NumPy) (laws : NumPyLaws numpy) (cv : Cv2) (s : float),
    Laplacian_var (flat 30 30 100) = Ok s ->
    estimate_metrics (flat 30 30 100)
    = Ok {| m_contrast := B64.pzero;
            m_sharpness := s;
            m_noise_level := B64.pzero |}.
Proof.
  split; [reflexivity |]. split; [vm_compute; reflexivity |].
  intros numpy laws cv s Hs. unfold estimate_metrics.
  rewrite PatchFacts.contrast_flat, PatchFacts.noise_level_flat by lia.
  cbn [rbind]. rewrite Hs. reflexivity.
Qed.

Lemma C1_small_image_patches_clamped_witness :
  Forall (fun p => exists r c nr nc : nat,
              p = block (flat 30 30 100) r c nr nc /\
              Z.of_nat r + Z.of_nat nr <= len (flat 30 30 100) /\
              Z.of_nat c + Z.of_nat nc <= 30 /\
              (1 <= nr)%nat /\ (1 <= nc)%nat /\
              ((nr < 40)%nat \/ (nc < 40)%nat))
         (patches (flat 30 30 100)).
Proof.
  refine (proj2 (proj2 (C1_small_image_patches_clamped
                          np_double DoubleFacts.np_double_laws cv_double
                          (flat 30 30 100) 30 _ _ _ _))).
  - unfold rect, flat. apply Forall_forall. intros r Hin.
    apply repeat_spec in Hin. subst r. reflexivity.
  - reflexivity.
  - lia.
  - left. reflexivity.
Defined.

(** ** The filter chain (lines 36-90) *)

Module PipelineFacts.
Import B64.

(** [-(s - 1)] and [1 - s] are the same binary64 number for the four
    strengths the code can choose. *)
Lemma blend_weight s :
  opp (sub (strength s) (of_Z 1)) = sub (of_Z 1) (strength s).
Proof.
  destruct (PolicyFacts.strength_values s) as [E | [E | [E | E]]];
    rewrite E; vm_compute; reflexivity.
Qed.

Lemma clip_uint8_shape img :
  len (np.clip_uint8 img) = len img /\
  forall w, rect w img -> rect w (np.clip_uint8 img).
Proof.
  unfold np.clip_uint8, len, rect. split.
  - now rewrite length_map.
  - intros w H. rewrite Forall_map.
    eapply Forall_impl; [| exact H]. cbn beta. intros r Hr.
    unfold len in *. now rewrite length_map.
Qed.

Lemma clip_uint8_range img : is_uint8 (np.clip_uint8 img).
Proof.
  unfold is_uint8, np.clip_uint8. rewrite Forall_map.
  apply Forall_forall. intros r _. rewrite Forall_map.
  apply Forall_forall. intros x _. unfold np.clip_sample. lia.
Qed.

(** Line 39 is the range clamp of the specification. *)
Lemma clip_sample_spec x : np.clip_sample x = spec_clamp_sample x.
Proof.
  unfold np.clip_sample, spec_clamp_sample.
  destruct (Z.ltb_spec x 0); destruct (Z.ltb_spec 255 x); lia.
Qed.

Lemma clip_uint8_spec img : np.clip_uint8 img = spec_range_clamp img.
Proof.
  unfold np.clip_uint8, spec_range_clamp.
  apply map_ext. intros r. apply map_ext. exact clip_sample_spec.
Qed.

Lemma ravel_clip_uint8 img :
  np.ravel img = [] -> np.ravel (np.clip_uint8 img) = [].
Proof.
  unfold np.ravel, np.clip_uint8. intros E.
  rewrite <- concat_map, E. reflexivity.
Qed.

(** The body of the try block on a 2-D array, stage by stage. *)
Lemma adaptive_body_stages (numpy : NumPy) (cv : Cv2) (img : image) :
  adaptive_body (Arr2 img)
  = (m <- estimate_metrics (np.clip_uint8 img) ;;
     spec_pipeline (policy m) img)%res.
Proof.
  unfold adaptive_body, spec_pipeline, run_stages, spec_stages, policy.
  cbn [rbind fold_left claheClip denoiseStrength sharpenStrength].
  rewrite <- clip_uint8_spec.
  destruct (estimate_metrics (np.clip_uint8 img)) as [m | e]; cbn [rbind];
    [| reflexivity].
  rewrite blend_weight.
  destruct (CLAHE_apply _ _ _) as [a | e]; cbn [rbind]; [| reflexivity].
  destruct (bilateralFilter _ _ _ _) as [b | e]; cbn [rbind]; [| reflexivity].
  destruct (fastNlMeansDenoising _ _ _ _) as [d | e]; cbn [rbind];
    reflexivity.
Qed.

End PipelineFacts.

(** C4. The pipeline applies exactly five stages in this order, each one
    fed with the output of the one before: range clamp to 8 bits (every
    sample below 0 becomes 0, every sample above 255 becomes 255, the others
    are kept), CLAHE with the computed clip limit and tile grid 8x8,
    bilateral filter (9, 75, 75), non-local-means denoising with the
    computed strength and windows 7/21, and sharpening
    [denoised * s + blurred * (1 - s)] with a 5x5 Gaussian blur of sigma
    1.2.  The parameters are computed from the metrics of the clamped image;
    when these cannot be obtained, as on an array without samples, the run
    raises and no stage after the clamp is applied.  A 3-D input is first
    converted to grayscale. *)
Theorem C4_five_stages_in_order (numpy : NumPy) (laws : NumPyLaws numpy)
        (cv : Cv2) :
  (forall img : image,
      adaptive_body (Arr2 img)
      = (m <- estimate_metrics (spec_range_clamp img) ;;
         spec_pipeline (policy m) img)%res) /\
  (forall a : list (list (list Z)),
      adaptive_body (Arr3 a)
      = (gray <- cvtColor_BGR2GRAY a ;; adaptive_body (Arr2 gray))%res) /\
  (forall p, List.length (spec_stages p) = 5%nat) /\
  (forall p img,
      spec_pipeline p img
      = (img_clahe <- CLAHE_apply (claheClip p) (8, 8)
                        (spec_range_clamp img) ;;
         img_bilateral <- bilateralFilter img_clahe 9 75 75 ;;
         img_denoised <- fastNlMeansDenoising img_bilateral
                           (denoiseStrength p) 7 21 ;;
         blurred <- GaussianBlur img_denoised (5, 5) (B64.dec 12 10) ;;
         addWeighted img_denoised (sharpenStrength p) blurred
                     (B64.sub (B64.of_Z 1) (sharpenStrength p)) 0)%res) /\
  (forall img : image,
      is_uint8 (spec_range_clamp img) /\
      (is_uint8 img -> spec_range_clamp img = img)) /\
  (forall (img : image) (e : exn),
      estimate_metrics (spec_range_clamp img) = Raise e ->
      adaptive_body (Arr2 img) = Raise e) /\
  (forall img : image,
      np.ravel img = [] ->
      exists e, np_percentile (spec_range_clamp img) 99 = Raise e /\
                adaptive_body (Arr2 img) = Raise e).
Proof.
  assert (Hbody : forall img : image,
      adaptive_body (Arr2 img)
      = (m <- estimate_metrics (spec_range_clamp img) ;;
         spec_pipeline (policy m) img)%res).
  { intros img. rewrite <- PipelineFacts.clip_uint8_spec.
    apply PipelineFacts.adaptive_body_stages. }
  split; [exact Hbody |].
  split; [| split; [| split; [| split; [| split]]]].
  - intros a. unfold adaptive_body.
    destruct (cvtColor_BGR2GRAY a); reflexivity.
  - reflexivity.
  - intros p img. unfold spec_pipeline, run_stages, spec_stages.
    cbn [rbind fold_left].
    destruct (CLAHE_apply _ _ _) as [a | e]; cbn [rbind]; [| reflexivity].
    destruct (bilateralFilter _ _ _ _) as [b | e]; cbn [rbind]; [| reflexivity].
    destruct (fastNlMeansDenoising _ _ _ _) as [d | e]; cbn [rbind];
      reflexivity.
  - intros img. split.
    + unfold is_uint8, spec_range_clamp. rewrite Forall_map.
      apply Forall_forall. intros r _. rewrite Forall_map.
      apply Forall_forall. intros x _. unfold spec_clamp_sample.
      destruct (Z.ltb_spec x 0); [lia |].
      destruct (Z.ltb_spec 255 x); lia.
    + intros H. unfold spec_range_clamp.
      rewrite <- (map_id img) at 2. apply map_ext_Forall.
      eapply Forall_impl; [| exact H]. cbn beta. intros r Hr.
      rewrite <- (map_id r) at 2. apply map_ext_Forall.
      eapply Forall_impl; [| exact Hr]. cbn beta. intros x Hx.
      unfold spec_clamp_sample.
      destruct (Z.ltb_spec x 0); [lia |].
      destruct (Z.ltb_spec 255 x); lia.
  - intros img e He. rewrite Hbody, He. reflexivity.
  - intros img E.
    assert (E' : np.ravel (spec_range_clamp img) = []).
    { rewrite <- PipelineFacts.clip_uint8_spec.
      now apply PipelineFacts.ravel_clip_uint8. }
    destruct (percentile_empty (spec_range_clamp img) 99 E') as [e He].
    exists e. split; [exact He |].
    rewrite Hbody. unfold estimate_metrics, contrast. rewrite He.
    reflexivity.
Qed.

Lemma C4_five_stages_in_order_witness :
  @adaptive_body np_double cv_double (Arr2 [[0; 255]; [7; 300]])
  = Ok [[0; 255]; [7; 255]] /\
  exists e, @adaptive_body np_double cv_double (Arr2 []) = Raise e.
Proof.
  pose proof (C4_five_stages_in_order np_double DoubleFacts.np_double_laws
                cv_double) as (Hbody & _ & _ & _ & _ & _ & Hempty).
  split.
  - rewrite Hbody. lazy. reflexivity.
  - destruct (Hempty [] eq_refl) as (e & _ & He). exists e. exact He.
Defined.

(** C8. When the filters keep the shape of their input, the enhanced image
    of an input of at least 40x40 samples has the height and the width of
    the input. *)
Theorem C8_output_shape (numpy : NumPy) (cv : Cv2) (shapes : Cv2Shapes cv)
        (img : ndarray) (w : Z) (out : image) :
  nd_rect w img -> 40 <= nd_len img -> 40 <= w ->
  adaptive_body img = Ok out ->
  len out = nd_len img /\ rect w out /\ shape out = (nd_len img, w).
Proof.
  intros Hr Hh Hw Hrun.
  assert (Hshape : len out = nd_len img /\ rect w out).
  { unfold adaptive_body in Hrun.
    assert (Hgray : exists g, (match img with
                               | Arr3 a => cvtColor_BGR2GRAY a
                               | Arr2 a => Ok a
                               end) = Ok g /\ len g = nd_len img /\ rect w g).
    { destruct img as [a | a]; cbn in *.
      - exists a. auto.
      - destruct (cvtColor_BGR2GRAY a) as [g |] eqn:E; [| discriminate].
        exists g. destruct (cvtColor_shape a g E) as [H1 H2]. auto. }
    destruct Hgray as (g & Eg & Hg1 & Hg2). rewrite Eg in Hrun.
    cbn [rbind] in Hrun.
    destruct (PipelineFacts.clip_uint8_shape g) as [Hc1 Hc2].
    destruct (estimate_metrics (np.clip_uint8 g)) as [m |]; [| discriminate].
    cbn [rbind] in Hrun.
    destruct (CLAHE_apply _ _ _) as [a |] eqn:E1; [| discriminate].
    cbn [rbind] in Hrun.
    destruct (bilateralFilter _ _ _ _) as [b |] eqn:E2; [| discriminate].
    cbn [rbind] in Hrun.
    destruct (fastNlMeansDenoising _ _ _ _) as [d |] eqn:E3; [| discriminate].
    cbn [rbind] in Hrun.
    destruct (GaussianBlur _ _ _) as [gb |] eqn:E4; [| discriminate].
    cbn [rbind] in Hrun.
    destruct (CLAHE_shape _ _ _ _ E1) as [Ha1 Ha2].
    destruct (bilateral_shape _ _ _ _ _ E2) as [Hb1 Hb2].
    destruct (fastNlMeans_shape _ _ _ _ _ E3) as [Hd1 Hd2].
    destruct (addWeighted_shape _ _ _ _ _ _ Hrun) as [Ho1 Ho2].
    split; [congruence |].
    apply Ho2, Hd2, Hb2, Ha2, Hc2, Hg2. }
  destruct Hshape as [H1 H2]. repeat split; try assumption.
  rewrite (GeometryFacts.shape_rect out w H2) by lia. now rewrite H1.
Qed.

Lemma cv_double_shapes : Cv2Shapes cv_double.
Proof.
  split; cbn.
  - intros a g E.
    destruct (forallb _ a); [| discriminate]. injection E as <-.
    unfold len, rect. split.
    + now rewrite length_map.
    + intros w H. rewrite Forall_map.
      eapply Forall_impl; [| exact H]. cbn beta. intros r Hr.
      unfold len in *. now rewrite length_map.
  - intros c t a b E. destruct a; [discriminate |]. injection E as <-. auto.
  - intros a d sc ss b E. injection E as <-. auto.
  - intros a h t s b E. injection E as <-. auto.
  - intros a k s b E. injection E as <-. auto.
  - intros a al b be g c E. injection E as <-. auto.
Qed.

Lemma C8_output_shape_witness :
  shape (flat 40 40 5) = (40, 40).
Proof.
  refine (proj2 (proj2 (C8_output_shape np_double cv_double cv_double_shapes
                          (Arr2 (flat 40 40 5)) 40 (flat 40 40 5)
                          _ _ _ _))).
  - unfold nd_rect, rect, flat. apply Forall_forall. intros r Hin.
    apply repeat_spec in Hin. subst r. reflexivity.
  - vm_compute. discriminate.
  - lia.
  - lazy. reflexivity.
Defined.

(** ** Running a file and a batch (lines 96-128) *)

Module IOFacts.

Lemma writes_app tr1 tr2 : writes (tr1 ++ tr2) = writes tr1 ++ writes tr2.
Proof.
  induction tr1 as [| [line | path img] tr1 IH]; cbn; [reflexivity | |];
    now rewrite IH.
Qed.

Lemma printed_app tr1 tr2 :
  printed (tr1 ++ tr2) = printed tr1 ++ printed tr2.
Proof.
  induction tr1 as [| [line | path img] tr1 IH]; cbn; [reflexivity | |];
    now rewrite IH.
Qed.

(** Splitting on every [print] of the goal: it returns or it raises. *)
Ltac run_prints :=
  repeat match goal with
         | |- context [stdout_write ?l ?w] =>
             let u := fresh "u" in
             destruct (stdout_write l w) as [u | ?]; [destruct u |]
         end.

Ltac same_writes :=
  unfold emit; cbn [fst snd st_world st_trace];
  rewrite ?writes_app; cbn [writes]; rewrite ?app_nil_r.

Section Run.
Context {host : Host} {numpy : NumPy} {cv : Cv2}.

Lemma print_accepted line st :
  stdout_write line (st_world st) = Ok tt ->
  print line st = (Ok tt, emit (Printed line) st).
Proof. intros H. unfold print. now rewrite H. Qed.

Lemma print_refused line st e :
  stdout_write line (st_world st) = Raise e ->
  print line st = (Raise e, st).
Proof. intros H. unfold print. now rewrite H. Qed.

(** A [print] writes no image and leaves the world alone. *)
Lemma print_quiet line st :
  st_world (snd (print line st)) = st_world st /\
  writes (st_trace (snd (print line st))) = writes (st_trace st).
Proof. unfold print. run_prints; same_writes; auto. Qed.

Lemma print_extends line st :
  exists tr, st_trace (snd (print line st)) = st_trace st ++ tr.
Proof.
  unfold print. run_prints; cbn [snd emit st_trace]; [eauto |].
  exists []. now rewrite app_nil_r.
Qed.

Lemma load_dicom_file_cases file_path st :
  load_dicom_file file_path st
  = match decode_dicom file_path (st_world st) with
    | Ok (img, ds) => (Ok (Some img, Some ds), st)
    | Raise e =>
        match stdout_write (line_load_error file_path e) (st_world st) with
        | Ok _ =>
            (Ok (None, None),
             emit (Printed (line_load_error file_path e)) st)
        | Raise e' => (Raise e', st)
        end
    end.
Proof.
  unfold load_dicom_file, try_except, bind, dcmread, ret, print.
  destruct (decode_dicom file_path (st_world st)) as [[img ds] | e];
    [reflexivity |].
  run_prints; reflexivity.
Qed.

Lemma adaptive_preprocessing_cases img st :
  adaptive_preprocessing img st
  = match adaptive_body img with
    | Ok img_sharpened => (Ok (Some img_sharpened), st)
    | Raise e =>
        match stdout_write (line_preprocessing_failed e) (st_world st) with
        | Ok _ =>
            (Ok None, emit (Printed (line_preprocessing_failed e)) st)
        | Raise e' => (Raise e', st)
        end
    end.
Proof.
  unfold adaptive_preprocessing, try_except, bind, lift, ret, print.
  destruct (adaptive_body img); [reflexivity |].
  run_prints; reflexivity.
Qed.

(** What [process_file] does, case by case. *)
Lemma process_file_cases file_path st :
  let st1 := emit (Printed (line_processing file_path)) st in
  process_file file_path st
  = match stdout_write (line_processing file_path) (st_world st) with
    | Raise e => (Raise e, st)
    | Ok _ =>
        match decode_dicom file_path (st_world st) with
        | Raise e => print (line_load_error file_path e) st1
        | Ok (img, ds) =>
            match adaptive_body img with
            | Raise e => print (line_preprocessing_failed e) st1
            | Ok result =>
                let out_path := out_path_of file_path in
                let '(r, w) := cv2_imwrite out_path result (st_world st) in
                let st2 := {| st_world := w;
                              st_trace := st_trace st1
                                          ++ [Imwrite out_path result] |} in
                match r with
                | Ok _ =>
                    try_except (print (line_saved out_path))
                               (fun e => print (line_could_not_save e)) st2
                | Raise e => print (line_could_not_save e) st2
                end
            end
        end
    end.
Proof.
  cbn zeta. unfold process_file.
  unfold bind at 1. unfold print at 1.
  destruct (stdout_write (line_processing file_path) (st_world st))
    as [[] | e0]; [| reflexivity].
  unfold bind at 1. rewrite load_dicom_file_cases.
  unfold emit at 1 2. cbn [st_world].
  destruct (decode_dicom file_path (st_world st)) as [[img ds] | e].
  - unfold bind at 1. rewrite adaptive_preprocessing_cases.
    unfold emit at 1 2. cbn [st_world].
    destruct (adaptive_body img) as [result | e].
    + unfold try_except, bind, imwrite. unfold emit. cbn [st_world st_trace].
      destruct (cv2_imwrite (out_path_of file_path) result (st_world st))
        as [[b | e] w]; reflexivity.
    + unfold print, ret, emit. cbn [st_world st_trace]. run_prints; reflexivity.
  - unfold print, ret, emit. cbn [st_world st_trace]. run_prints; reflexivity.
Qed.

(** The writes of one file: none, with the world as it was, or one to its
    own output path. *)
Lemma process_file_writes_shape file_path st :
  (st_world (snd (process_file file_path st)) = st_world st /\
   writes (st_trace (snd (process_file file_path st)))
   = writes (st_trace st))
  \/ exists img ds result,
       stdout_write (line_processing file_path) (st_world st) = Ok tt /\
       decode_dicom file_path (st_world st) = Ok (img, ds) /\
       adaptive_body img = Ok result /\
       writes (st_trace (snd (process_file file_path st)))
       = writes (st_trace st) ++ [(out_path_of file_path, result)].
Proof.
  rewrite process_file_cases. cbn zeta.
  destruct (stdout_write (line_processing file_path) (st_world st))
    as [[] | e0] eqn:Eh; [| left; auto].
  destruct (decode_dicom _ _) as [[img ds] | e] eqn:Ed.
  - destruct (adaptive_body img) as [result | e] eqn:Eb.
    + right. exists img, ds, result.
      split; [reflexivity |].
      split; [first [exact Ed | reflexivity] |].
      split; [first [exact Eb | reflexivity] |].
      destruct (cv2_imwrite _ _ _) as [[b | e] w];
        unfold try_except, print; cbn [st_world]; run_prints; same_writes;
        reflexivity.
    + left. unfold print. cbn [st_world emit]. run_prints; same_writes; auto.
  - left. unfold print. cbn [st_world emit]. run_prints; same_writes; auto.
Qed.

(** A file that does not decode or does not preprocess leaves the world as
    it is and adds no write. *)
Lemma process_file_failure file_path st :
  (exists e, decode_dicom file_path (st_world st) = Raise e) \/
  (exists img ds e, decode_dicom file_path (st_world st) = Ok (img, ds) /\
                    adaptive_body img = Raise e) ->
  st_world (snd (process_file file_path st)) = st_world st /\
  writes (st_trace (snd (process_file file_path st))) = writes (st_trace st).
Proof.
  intros H.
  destruct (process_file_writes_shape file_path st)
    as [H0 | (img & ds & result & _ & Hd & Hb & _)]; [exact H0 |].
  destruct H as [[e He] | (img' & ds' & e & Hd' & Hb')]; congruence.
Qed.

(** With its header printed, [process_file] returns unless a later line
    cannot be printed. *)
Lemma process_file_returns file_path st :
  stdout_accepts_all host -> fst (process_file file_path st) = Ok tt.
Proof.
  intros Hout. rewrite process_file_cases. cbn zeta. rewrite Hout.
  destruct (decode_dicom _ _) as [[img ds] | e].
  - destruct (adaptive_body img) as [result | e].
    + destruct (cv2_imwrite _ _ _) as [[b | e] w];
        unfold try_except, print; now rewrite !Hout.
    + unfold print. now rewrite Hout.
  - unfold print. now rewrite Hout.
Qed.

(** A run only appends to the trace. *)
Lemma process_file_extends file_path st :
  exists tr,
    st_trace (snd (process_file file_path st)) = st_trace st ++ tr.
Proof.
  rewrite process_file_cases. cbn zeta.
  destruct (stdout_write (line_processing file_path) (st_world st))
    as [[] | e0]; [| exists []; cbn [snd]; now rewrite app_nil_r].
  destruct (decode_dicom _ _) as [[img ds] | e].
  - destruct (adaptive_body img) as [result | e].
    + destruct (cv2_imwrite _ _ _) as [[b | e] w];
        unfold try_except, print; cbn [st_world]; run_prints;
        unfold emit; cbn [snd st_trace]; rewrite <- ?app_assoc; eauto.
    + unfold print. cbn [st_world emit]. run_prints;
        unfold emit; cbn [snd st_trace]; rewrite <- ?app_assoc; eauto.
  - unfold print. cbn [st_world emit]. run_prints;
      unfold emit; cbn [snd st_trace]; rewrite <- ?app_assoc; eauto.
Qed.

(** A file whose header is printed and that decodes and preprocesses has
    its image written. *)
Lemma process_file_writes file_path st img ds result :
  stdout_write (line_processing file_path) (st_world st) = Ok tt ->
  decode_dicom file_path (st_world st) = Ok (img, ds) ->
  adaptive_body img = Ok result ->
  writes (st_trace (snd (process_file file_path st)))
  = writes (st_trace st) ++ [(out_path_of file_path, result)].
Proof.
  intros Hh Hd Hb.
  destruct (process_file_writes_shape file_path st)
    as [[_ H0] | (img' & ds' & result' & _ & Hd' & Hb' & H1)].
  - exfalso. revert H0. rewrite process_file_cases. cbn zeta.
    rewrite Hh, Hd, Hb.
    destruct (cv2_imwrite _ _ _) as [[b | e] w];
      unfold try_except, print; cbn [st_world]; run_prints; same_writes;
      intros H0; apply (f_equal (@List.length _)) in H0;
      rewrite length_app in H0; cbn [List.length] in H0; lia.
  - rewrite H1. congruence.
Qed.

Lemma loop_body_returns file st :
  stdout_accepts_all host -> fst (loop_body file st) = Ok tt.
Proof.
  intros Hout. unfold loop_body.
  destruct (os_path_exists file (st_world st));
    [now apply process_file_returns |].
  unfold print. now rewrite Hout.
Qed.

Lemma loop_body_extends file st :
  exists tr, st_trace (snd (loop_body file st)) = st_trace st ++ tr.
Proof.
  unfold loop_body. destruct (os_path_exists file (st_world st)).
  - apply process_file_extends.
  - apply print_extends.
Qed.

Lemma loop_body_writes_shape file st :
  (st_world (snd (loop_body file st)) = st_world st /\
   writes (st_trace (snd (loop_body file st))) = writes (st_trace st))
  \/ exists result,
       writes (st_trace (snd (loop_body file st)))
       = writes (st_trace st) ++ [(out_path_of file, result)].
Proof.
  unfold loop_body. destruct (os_path_exists file (st_world st)).
  - destruct (process_file_writes_shape file st)
      as [H | (img & ds & result & _ & _ & _ & H)]; eauto.
  - left. apply print_quiet.
Qed.

(** A file that is missing, does not decode or does not preprocess leaves
    the world as it is and adds no write. *)
Lemma loop_body_failure file st :
  os_path_exists file (st_world st) = false \/
  (exists e, decode_dicom file (st_world st) = Raise e) \/
  (exists img ds e, decode_dicom file (st_world st) = Ok (img, ds) /\
                    adaptive_body img = Raise e) ->
  st_world (snd (loop_body file st)) = st_world st /\
  writes (st_trace (snd (loop_body file st))) = writes (st_trace st).
Proof.
  intros H. unfold loop_body.
  destruct (os_path_exists file (st_world st)) eqn:Ex.
  - destruct H as [H | H]; [discriminate |].
    now apply process_file_failure.
  - apply print_quiet.
Qed.

(** The loop stops at the first file whose body raises. *)
Lemma main_loop_cons file files st :
  main_loop (file :: files) st
  = match loop_body file st with
    | (Ok _, st') => main_loop files st'
    | (Raise e, st') => (Raise e, st')
    end.
Proof. reflexivity. Qed.

Lemma main_loop_cons_ok file files st :
  fst (loop_body file st) = Ok tt ->
  main_loop (file :: files) st = main_loop files (snd (loop_body file st)).
Proof.
  intros H. rewrite main_loop_cons.
  destruct (loop_body file st) as [[[] | e] st']; cbn in *;
    [reflexivity | discriminate].
Qed.

Lemma main_loop_app l1 l2 st :
  fst (main_loop l1 st) = Ok tt ->
  main_loop (l1 ++ l2) st = main_loop l2 (snd (main_loop l1 st)).
Proof.
  revert st; induction l1 as [| f l1 IH]; intros st H.
  - reflexivity.
  - cbn [app]. rewrite (main_loop_cons f (l1 ++ l2)).
    rewrite (main_loop_cons f l1) in H |- *.
    destruct (loop_body f st) as [[[] | e] st']; [now apply IH |].
    discriminate H.
Qed.

Lemma main_loop_returns files st :
  stdout_accepts_all host -> fst (main_loop files st) = Ok tt.
Proof.
  intros Hout. revert st; induction files as [| f files IH]; intros st.
  - reflexivity.
  - rewrite main_loop_cons_ok by now apply loop_body_returns. apply IH.
Qed.

Lemma main_loop_extends files st :
  exists tr, st_trace (snd (main_loop files st)) = st_trace st ++ tr.
Proof.
  revert st; induction files as [| f files IH]; intros st.
  - exists []. cbn. now rewrite app_nil_r.
  - rewrite main_loop_cons.
    destruct (loop_body_extends f st) as [tr1 H1].
    destruct (loop_body f st) as [[[] | e] st']; cbn [snd] in *.
    + destruct (IH st') as [tr2 H2].
      exists (tr1 ++ tr2). now rewrite H2, H1, app_assoc.
    + eauto.
Qed.

(** A file at which a line outside every [try] cannot be printed ends the
    loop: the exception leaves [main_loop] and the files after it are never
    looked at. *)
Lemma main_loop_aborted file files st e :
  (os_path_exists file (st_world st) = true /\
   stdout_write (line_processing file) (st_world st) = Raise e) \/
  (os_path_exists file (st_world st) = false /\
   stdout_write (line_not_found file) (st_world st) = Raise e) ->
  main_loop (file :: files) st = (Raise e, st).
Proof.
  intros H. rewrite main_loop_cons. unfold loop_body.
  destruct H as [[-> Hp] | [-> Hp]].
  - rewrite process_file_cases. cbn zeta. now rewrite Hp.
  - unfold print. now rewrite Hp.
Qed.

End Run.

End IOFacts.

(** C9 (where the code falls short). The batch loop is not proof against
    every failure on one file: the header line of [process_file] (line 98)
    and the "File not found" line (line 128) are printed outside every
    [try].  When the files before [file] have been handled and that line
    cannot be printed for [file], the exception leaves the loop: the batch
    ends there with that exception, in the state the earlier files left, and
    none of the files after it is processed: no image is written for any of
    them, however valid they are. *)
Theorem C9_unprintable_name_aborts_batch (host : Host) (numpy : NumPy)
        (cv : Cv2) (pre : list string) (file : string) (post : list string)
        (st : state) (e : exn) :
  let st_file := snd (main_loop pre st) in
  fst (main_loop pre st) = Ok tt ->
  (os_path_exists file (st_world st_file) = true /\
   stdout_write (line_processing file) (st_world st_file) = Raise e) \/
  (os_path_exists file (st_world st_file) = false /\
   stdout_write (line_not_found file) (st_world st_file) = Raise e) ->
  main_loop (pre ++ file :: post) st = (Raise e, st_file) /\
  writes (st_trace (snd (main_loop (pre ++ file :: post) st)))
  = writes (st_trace st_file) /\
  forall later result,
    In later post ->
    (forall p i, In (p, i) (writes (st_trace st_file)) ->
                 p <> out_path_of later) ->
    ~ In (out_path_of later, result)
         (writes (st_trace (snd (main_loop (pre ++ file :: post) st)))).
Proof.
  intros st_file Hpre Hfile.
  assert (Hrun : main_loop (pre ++ file :: post) st = (Raise e, st_file)).
  { rewrite IOFacts.main_loop_app by assumption. fold st_file.
    now apply IOFacts.main_loop_aborted. }
  rewrite Hrun. cbn [snd].
  split; [reflexivity |]. split; [reflexivity |].
  intros later result _ Hfresh Hin. now apply (Hfresh _ _ Hin).
Qed.

Lemma C9_unprintable_name_aborts_batch_witness :
  @main_loop host_strict np_double cv_double
     [("Enter your Path/" ++ undecodable_name)%string;
      "Enter your Path/a.dcm"%string] st0_strict
  = (Raise (Exception "UnicodeEncodeError"), st0_strict) /\
  @main host_strict np_double cv_double st0_strict
  = (Raise (Exception "UnicodeEncodeError"), st0_strict) /\
  map fst (writes (st_trace (snd (@main host_lenient np_double cv_double
                                    st0_lenient))))
  = ["Enter your Path/a_processed.png"%string].
Proof.
  split; [| split].
  - refine (proj1 (C9_unprintable_name_aborts_batch host_strict np_double
                     cv_double []
                     ("Enter your Path/" ++ undecodable_name)%string
                     ["Enter your Path/a.dcm"%string] st0_strict
                     (Exception "UnicodeEncodeError") _ _)).
    + reflexivity.
    + left. split; reflexivity.
  - lazy. reflexivity.
  - lazy. reflexivity.
Defined.

(** C10. When loading returns no image, or preprocessing returns no result,
    [process_file] returns without calling [cv2.imwrite]: the outside world is
    unchanged and the trace has no new write.  ([st1] is the state in which
    the header line has been printed; were that line refused, the call would
    end with that exception, before loading anything.) *)
Theorem C10_no_write_on_failure (host : Host) (numpy : NumPy) (cv : Cv2)
        (file_path : string) (st : state) :
  let st1 := emit (Printed (line_processing file_path)) st in
  (exists st2, load_dicom_file file_path st1 = (Ok (None, None), st2)) \/
  (exists img ds st2 st3,
      load_dicom_file file_path st1 = (Ok (Some img, ds), st2) /\
      adaptive_preprocessing img st2 = (Ok None, st3)) ->
  fst (process_file file_path st)
  = match stdout_write (line_processing file_path) (st_world st) with
    | Ok _ => Ok tt
    | Raise e => Raise e
    end /\
  st_world (snd (process_file file_path st)) = st_world st /\
  writes (st_trace (snd (process_file file_path st)))
  = writes (st_trace st).
Proof.
  intros st1 H.
  assert (Hcase :
    (exists e, decode_dicom file_path (st_world st) = Raise e /\
               stdout_write (line_load_error file_path e) (st_world st)
               = Ok tt) \/
    (exists img ds e,
        decode_dicom file_path (st_world st) = Ok (img, ds) /\
        adaptive_body img = Raise e /\
        stdout_write (line_preprocessing_failed e) (st_world st) = Ok tt)).
  { rewrite !IOFacts.load_dicom_file_cases in H.
    unfold st1, emit in H. cbn [st_world] in H.
    destruct (decode_dicom file_path (st_world st)) as [[img ds] | e].
    - right. destruct H as [[st2 H] | (img' & ds' & st2 & st3 & H1 & H2)];
        [discriminate |].
      injection H1 as <- _ <-.
      rewrite IOFacts.adaptive_preprocessing_cases in H2. cbn [st_world] in H2.
      destruct (adaptive_body img) as [result | e] eqn:Eb; [discriminate |].
      exists img, ds, e.
      destruct (stdout_write (line_preprocessing_failed e) (st_world st))
        as [[] | e']; [auto | discriminate].
    - left. exists e.
      destruct (stdout_write (line_load_error file_path e) (st_world st))
        as [[] | e']; [auto |].
      destruct H as [[st2 H] | (img' & ds' & st2 & st3 & H1 & H2)];
        discriminate. }
  split.
  - rewrite IOFacts.process_file_cases. cbn zeta.
    destruct (stdout_write (line_processing file_path) (st_world st))
      as [[] | e0]; [| reflexivity].
    destruct Hcase as [(e & -> & Hp) | (img & ds & e & -> & -> & Hp)];
      unfold print, emit; cbn [st_world]; now rewrite Hp.
  - apply IOFacts.process_file_failure.
    destruct Hcase as [(e & Hd & _) | (img & ds & e & Hd & Hb & _)]; eauto 6.
Qed.

Lemma C10_no_write_on_failure_witness :
  writes (st_trace (snd (@process_file host_double np_double cv_double
                           "Enter your Path/bad.dcm" st0)))
  = writes (st_trace st0).
Proof.
  refine (proj2 (proj2 (C10_no_write_on_failure host_double np_double
                          cv_double "Enter your Path/bad.dcm" st0 _))).
  left. eexists. reflexivity.
Defined.

(* ===================================================================== *)
(** * Part III. Further properties of the code                           *)
(* ===================================================================== *)

(** ** File names (lines 108 and 118-119) *)

Module NameFacts.

Lemma lower_app a b : lower (a ++ b) = (lower a ++ lower b)%string.
Proof. induction a as [| c a IH]; cbn; [reflexivity | now rewrite IH]. Qed.

Lemma lower_ascii_idem c : lower_ascii (lower_ascii c) = lower_ascii c.
Proof.
  unfold lower_ascii.
  destruct ((65 <=? nat_of_ascii c) && (nat_of_ascii c <=? 90))%nat eqn:E;
    [| now rewrite E].
  apply andb_prop in E as [E1 E2].
  apply Nat.leb_le in E1, E2.
  rewrite nat_ascii_embedding by lia.
  replace (nat_of_ascii c + 32 <=? 90)%nat with false
    by (symmetry; apply Nat.leb_gt; lia).
  now rewrite andb_false_r.
Qed.

Lemma lower_idem s : lower (lower s) = lower s.
Proof.
  induction s as [| c s IH]; cbn; [reflexivity |].
  now rewrite lower_ascii_idem, IH.
Qed.

Lemma length_app a b :
  String.length (a ++ b) = (String.length a + String.length b)%nat.
Proof. induction a as [| c a IH]; cbn; [reflexivity | now rewrite IH]. Qed.

Lemma endswith_refl s : endswith s s = true.
Proof. destruct s; cbn [endswith]; now rewrite String.eqb_refl. Qed.

Lemma endswith_app a b : endswith (a ++ b) b = true.
Proof.
  induction a as [| c a IH]; cbn [append]; [apply endswith_refl |].
  cbn [endswith]. rewrite IH. now destruct (String.eqb _ _).
Qed.

(** A suffix of [a ++ b] that is no longer than [b] is a suffix of [b]. *)
Lemma endswith_app_short a b suffix :
  (String.length suffix <= String.length b)%nat ->
  endswith (a ++ b) suffix = true -> endswith b suffix = true.
Proof.
  intros Hlen. induction a as [| c a IH]; cbn [append]; [auto |].
  cbn [endswith]. destruct (String.eqb_spec (String c (a ++ b)) suffix) as [E | _].
  - subst suffix. cbn [String.length] in Hlen. rewrite length_app in Hlen. lia.
  - exact IH.
Qed.

End NameFacts.

(** The directory filter looks at the extension only and ignores its case:
    any name made of a stem and an extension that lower-cases to [.dcm] or
    [.rvg] is picked up, and lower-casing a name does not change the
    verdict. *)
Theorem candidate_extension_case_insensitive (stem ext : string) :
  lower ext = ".dcm"%string \/ lower ext = ".rvg"%string ->
  is_candidate (stem ++ ext) = true /\
  is_candidate (lower (stem ++ ext)) = is_candidate (stem ++ ext).
Proof.
  intros H. unfold is_candidate. rewrite NameFacts.lower_idem. split.
  - rewrite NameFacts.lower_app.
    destruct H as [-> | ->]; rewrite NameFacts.endswith_app;
      [reflexivity | apply orb_true_r].
  - reflexivity.
Qed.

Lemma candidate_extension_case_insensitive_witness :
  is_candidate "Scan01.DcM" = true.
Proof.
  apply (proj1 (candidate_extension_case_insensitive "Scan01" ".DcM"
                  (or_introl eq_refl))).
Defined.

(** The output of a run is never an input of a later run: whatever the root
    of the name, [root + "_processed.png"] is rejected by the directory
    filter, so no output file name is ever listed for processing. *)
Theorem output_never_candidate (host : Host) :
  (forall root : string, is_candidate (root ++ "_processed.png") = false) /\
  (forall file_path : string, is_candidate (out_path_of file_path) = false).
Proof.
  assert (H : forall root : string,
             is_candidate (root ++ "_processed.png") = false).
  { intros root. unfold is_candidate. rewrite NameFacts.lower_app.
    apply orb_false_intro.
    - destruct (endswith _ ".dcm") eqn:E; [| reflexivity].
      apply NameFacts.endswith_app_short in E; [discriminate E | cbn; lia].
    - destruct (endswith _ ".rvg") eqn:E; [| reflexivity].
      apply NameFacts.endswith_app_short in E; [discriminate E | cbn; lia]. }
  split; [exact H |]. intros file_path. apply H.
Qed.

(** ** Parameters (lines 61, 69, 78-85, 88) *)

(** The strength is one of the four constants for every binary64 value,
    and a NaN sharpness falls through every comparison to 1.1. *)
Theorem strength_total (sharpness : float) :
  (strength sharpness = B64.of_Z 2 \/
   strength sharpness = B64.dec 17 10 \/
   strength sharpness = B64.dec 7 10 \/
   strength sharpness = B64.dec 11 10) /\
  (B64.is_nan sharpness = true -> strength sharpness = B64.dec 11 10).
Proof.
  split; [apply PolicyFacts.strength_values |].
  destruct sharpness; intros H; try discriminate H. reflexivity.
Qed.

Lemma strength_total_witness : strength B64.nan = B64.dec 11 10.
Proof. apply (proj2 (strength_total B64.nan) eq_refl). Defined.

(** A sharper image never gets a larger strength: on comparable values the
    strength is non-increasing in the sharpness. *)
Theorem strength_non_increasing (s1 s2 : float) :
  B64.leb s1 s2 = true ->
  B64.leb (strength s2) (strength s1) = true.
Proof.
  intros H.
  assert (Hlt : forall c, B64.ltb s2 c = true -> B64.ltb s1 c = true)
    by (intros c Hc; exact (B64Facts.leb_ltb_trans _ _ _ H Hc)).
  assert (Hgt : forall c, B64.ltb c s1 = true -> B64.ltb c s2 = true)
    by (intros c Hc; exact (B64Facts.ltb_leb_trans _ _ _ Hc H)).
  unfold strength.
  destruct (B64.ltb s2 (B64.of_Z 20)) eqn:A2.
  { now rewrite (Hlt _ A2). }
  destruct (B64.ltb s2 (B64.of_Z 80)) eqn:B2.
  { rewrite (Hlt _ B2). destruct (B64.ltb s1 (B64.of_Z 20));
      vm_compute; reflexivity. }
  destruct (B64.ltb (B64.of_Z 300) s1) eqn:C1.
  { rewrite (Hgt _ C1).
    destruct (B64.ltb s1 (B64.of_Z 20)), (B64.ltb s1 (B64.of_Z 80));
      vm_compute; reflexivity. }
  destruct (B64.ltb s1 (B64.of_Z 20)), (B64.ltb s1 (B64.of_Z 80)),
    (B64.ltb (B64.of_Z 300) s2); vm_compute; reflexivity.
Qed.

Lemma strength_non_increasing_witness :
  B64.leb (strength (B64.of_Z 500)) (strength (B64.of_Z 10)) = true.
Proof. apply (strength_non_increasing (B64.of_Z 10) (B64.of_Z 500) eq_refl). Defined.

(** The two weights handed to [cv2.addWeighted], [strength] and
    [-(strength - 1)], add up to exactly 1.0 for every sharpness. *)
Theorem blend_weights_sum_to_one (sharpness : float) :
  B64.add (strength sharpness)
          (B64.opp (B64.sub (strength sharpness) (B64.of_Z 1)))
  = B64.of_Z 1.
Proof.
  destruct (PolicyFacts.strength_values sharpness) as [E | [E | [E | E]]];
    rewrite E; vm_compute; reflexivity.
Qed.

(** Both clamped parameters are NaN exactly when the metric is NaN; for any
    other metric, negative or infinite included, they stay in their range. *)
Theorem clamped_parameters_nan_or_in_range (x : float) :
  B64.is_nan (clahe_clip x) = B64.is_nan x /\
  B64.is_nan (denoise_strength x) = B64.is_nan x /\
  (B64.is_nan x = false ->
   B64.leb (B64.of_Z 1) (clahe_clip x) = true /\
   B64.leb (clahe_clip x) (B64.of_Z 3) = true /\
   B64.leb (B64.of_Z 5) (denoise_strength x) = true /\
   B64.leb (denoise_strength x) (B64.of_Z 15) = true).
Proof.
  destruct (B64.is_nan x) eqn:E.
  - destruct x; try discriminate E. repeat split; discriminate.
  - destruct (PolicyFacts.clahe_clip_range x E) as [H1 H2].
    destruct (PolicyFacts.denoise_strength_range x E) as [H3 H4].
    repeat split; auto.
    + exact (B64Facts.leb_not_nan_r _ _ H1).
    + exact (B64Facts.leb_not_nan_r _ _ H3).
Qed.

Lemma clamped_parameters_nan_or_in_range_witness :
  B64.leb (clahe_clip (S754_infinity true)) (B64.of_Z 3) = true.
Proof.
  apply (proj2 (proj2 (clamped_parameters_nan_or_in_range
                         (S754_infinity true))) eq_refl).
Defined.

(** ** The range clamp (line 39) *)

Module ClampFacts.

Lemma clip_sample_id x : 0 <= x <= 255 -> np.clip_sample x = x.
Proof. unfold np.clip_sample. lia. Qed.

Lemma clip_uint8_id img : is_uint8 img -> np.clip_uint8 img = img.
Proof.
  unfold is_uint8, np.clip_uint8. intros H.
  induction H as [| r img Hr _ IH]; cbn [map]; [reflexivity |].
  rewrite IH. f_equal.
  induction Hr as [| x r Hx _ IHr]; cbn [map]; [reflexivity |].
  now rewrite IHr, clip_sample_id.
Qed.

End ClampFacts.

(** The clamp yields 8-bit samples, leaves an 8-bit image untouched, is
    idempotent and keeps the shape. *)
Theorem clip_uint8_normalises (img : image) :
  is_uint8 (np.clip_uint8 img) /\
  (is_uint8 img -> np.clip_uint8 img = img) /\
  np.clip_uint8 (np.clip_uint8 img) = np.clip_uint8 img /\
  shape (np.clip_uint8 img) = shape img.
Proof.
  split; [apply PipelineFacts.clip_uint8_range |].
  split; [apply ClampFacts.clip_uint8_id |].
  split.
  - apply ClampFacts.clip_uint8_id, PipelineFacts.clip_uint8_range.
  - unfold shape, np.clip_uint8, len. rewrite length_map.
    destruct img as [| r t]; cbn [map]; [reflexivity |].
    now rewrite length_map.
Qed.

Lemma clip_uint8_normalises_witness :
  np.clip_uint8 [[0; 128]; [255; 7]] = [[0; 128]; [255; 7]].
Proof.
  apply (proj1 (proj2 (clip_uint8_normalises [[0; 128]; [255; 7]]))).
  repeat constructor; lia.
Defined.

(** Clamping the input beforehand changes nothing: the metrics, the
    parameters and the filter chain only ever see the clamped samples. *)
Theorem adaptive_body_sees_clamped_input (numpy : NumPy) (cv : Cv2)
        (img : image) :
  adaptive_body (Arr2 (np.clip_uint8 img)) = adaptive_body (Arr2 img).
Proof.
  unfold adaptive_body. cbn [rbind].
  now rewrite (ClampFacts.clip_uint8_id _ (PipelineFacts.clip_uint8_range img)).
Qed.



(** ** Patches on images of any size (lines 46-57) *)

(** On every non-empty image each of the eight patches is a non-empty block
    inside the image with at most 40 rows and at most 40 columns. *)
Theorem patches_inside_image (img : image) (w : Z) :
  rect w img -> 0 < len img -> 0 < w ->
  List.length (patches img) = 8%nat /\
  Forall (fun p => exists r c nr nc : nat,
              p = block img r c nr nc /\
              Z.of_nat r + Z.of_nat nr <= len img /\
              Z.of_nat c + Z.of_nat nc <= w /\
              (1 <= nr <= 40)%nat /\ (1 <= nc <= 40)%nat /\
              len p = Z.of_nat nr /\ rect (Z.of_nat nc) p)
         (patches img).
Proof.
  intros Hr Hh Hw. unfold patches.
  rewrite (GeometryFacts.shape_rect img w Hr Hh).
  split; [reflexivity |].
  unfold patch_size. change (40 / 2) with 20.
  repeat (apply Forall_cons;
    [ match goal with
      | |- exists _ _ _ _, np.slice2 _ ?r0 ?r1 ?c0 ?c1 = _ /\ _ =>
          destruct (GeometryFacts.slice2_block img w r0 r1 c0 c1 Hr
                      ltac:(lia)) as (Hs & Hb1 & Hb2 & Hb3 & Hb4);
          pose proof (PatchFacts.patch_extent (len img) r0 r1 ltac:(lia)
                        ltac:(auto)) as [He1 He2];
          pose proof (PatchFacts.patch_extent w c0 c1 ltac:(lia)
                        ltac:(auto)) as [He3 He4];
          eexists _, _, _, _; split; [exact Hs |];
          rewrite Hs;
          repeat (split; [lia |]);
          apply (GeometryFacts.block_shape img w); (assumption || lia)
      end |]).
  apply Forall_nil.
Qed.

Lemma patches_inside_image_witness :
  List.length (patches (flat 3 50 1)) = 8%nat.
Proof.
  refine (proj1 (patches_inside_image (flat 3 50 1) 50 _ _ _)).
  - unfold rect, flat. apply Forall_forall. intros r Hin.
    apply repeat_spec in Hin. subst r. reflexivity.
  - reflexivity.
  - lia.
Defined.

(** ** Loading, processing and the batch (lines 10-31, 96-128) *)

Module LoopFacts.

Section Run.
Context {host : Host} {numpy : NumPy} {cv : Cv2}.

Lemma main_loop_writes_from files st p i :
  In (p, i) (writes (st_trace (snd (main_loop files st)))) ->
  In (p, i) (writes (st_trace st)) \/
  exists f, In f files /\ p = out_path_of f.
Proof.
  revert st; induction files as [| f files IH]; intros st H.
  - now left.
  - rewrite IOFacts.main_loop_cons in H.
    pose proof (IOFacts.loop_body_writes_shape f st) as Hshape.
    destruct (loop_body f st) as [[[] | e] st']; cbn [snd] in *.
    + destruct (IH _ H) as [H1 | (g & Hg & ->)].
      * destruct Hshape as [[_ E] | [result E]]; rewrite E in H1.
        -- now left.
        -- apply in_app_or in H1 as [H1 | [H1 | []]]; [now left |].
           injection H1 as <- _. right. exists f.
           split; [now left | reflexivity].
      * right. exists g. split; [now right | reflexivity].
    + destruct Hshape as [[_ E] | [result E]]; rewrite E in H.
      * now left.
      * apply in_app_or in H as [H | [H | []]]; [now left |].
        injection H as <- _. right. exists f.
        split; [now left | reflexivity].
Qed.

Lemma main_loop_writes_count files st :
  (List.length (writes (st_trace (snd (main_loop files st))))
   <= List.length (writes (st_trace st)) + List.length files)%nat.
Proof.
  revert st; induction files as [| f files IH]; intros st.
  - cbn. lia.
  - rewrite IOFacts.main_loop_cons.
    pose proof (IOFacts.loop_body_writes_shape f st) as Hshape.
    destruct (loop_body f st) as [[[] | e] st']; cbn [snd] in *.
    + specialize (IH st').
      destruct Hshape as [[_ E] | [result E]]; rewrite E in IH.
      * cbn [List.length]. lia.
      * rewrite length_app in IH. cbn [List.length] in *. lia.
    + destruct Hshape as [[_ E] | [result E]]; rewrite E.
      * cbn [List.length]. lia.
      * rewrite length_app. cbn [List.length]. lia.
Qed.

Lemma main_loop_all_fail files w st :
  st_world st = w ->
  (forall f, In f files ->
             os_path_exists f w = false \/
             (exists e, decode_dicom f w = Raise e) \/
             (exists img ds e, decode_dicom f w = Ok (img, ds) /\
                               adaptive_body img = Raise e)) ->
  st_world (snd (main_loop files st)) = w /\
  writes (st_trace (snd (main_loop files st))) = writes (st_trace st).
Proof.
  revert st; induction files as [| f files IH]; intros st Hw Hall.
  - now split.
  - rewrite IOFacts.main_loop_cons.
    destruct (IOFacts.loop_body_failure f st) as [H1 H2].
    { rewrite Hw. apply Hall. now left. }
    destruct (loop_body f st) as [[[] | e] st']; cbn [snd] in *.
    + destruct (IH st') as [H3 H4].
      * congruence.
      * intros g Hg. apply Hall. now right.
      * split; congruence.
    + split; congruence.
Qed.

Lemma main_cases st :
  main st
  = match os_listdir image_dir (st_world st) with
    | Ok names =>
        main_loop (map (os_path_join image_dir) (filter is_candidate names)) st
    | Raise e => print (line_listdir_failed image_dir e) st
    end.
Proof.
  unfold main, list_sample_files, bind, try_except, listdir, ret, print.
  destruct (os_listdir image_dir (st_world st)) as [names | e];
    [reflexivity |].
  IOFacts.run_prints; reflexivity.
Qed.

End Run.

End LoopFacts.

(** [load_dicom_file] returns the image together with the dataset, or
    [(None, None)] after printing one line, and never one without the other.
    It raises only when that line cannot be printed.  It never changes the
    world and writes no image. *)
Theorem load_dicom_file_outcomes (host : Host) (file_path : string)
        (st : state) :
  st_world (snd (load_dicom_file file_path st)) = st_world st /\
  writes (st_trace (snd (load_dicom_file file_path st)))
  = writes (st_trace st) /\
  ((exists img ds,
       decode_dicom file_path (st_world st) = Ok (img, ds) /\
       load_dicom_file file_path st = (Ok (Some img, Some ds), st)) \/
   (exists e,
       decode_dicom file_path (st_world st) = Raise e /\
       stdout_write (line_load_error file_path e) (st_world st) = Ok tt /\
       load_dicom_file file_path st
       = (Ok (None, None),
          {| st_world := st_world st;
             st_trace := st_trace st
                         ++ [Printed (line_load_error file_path e)] |})) \/
   (exists e e',
       decode_dicom file_path (st_world st) = Raise e /\
       stdout_write (line_load_error file_path e) (st_world st) = Raise e' /\
       load_dicom_file file_path st = (Raise e', st))) /\
  (forall img ds st',
      load_dicom_file file_path st = (Ok (img, ds), st') ->
      (img = None <-> ds = None)).
Proof.
  rewrite IOFacts.load_dicom_file_cases.
  destruct (decode_dicom file_path (st_world st)) as [[img ds] | e].
  - split; [reflexivity |]. split; [reflexivity |]. split.
    + left. eauto.
    + intros img' ds' st' [= <- <- _]. split; discriminate.
  - destruct (stdout_write (line_load_error file_path e) (st_world st))
      as [[] | e'] eqn:Ep.
    + split; [reflexivity |].
      split; [IOFacts.same_writes; reflexivity |]. split.
      * right. left. exists e. auto.
      * intros img' ds' st' [= <- <- _]. split; reflexivity.
    + split; [reflexivity |]. split; [reflexivity |]. split.
      * right. right. exists e, e'. auto.
      * intros img' ds' st' [=].
Qed.

(** [adaptive_preprocessing] turns a failure of any step or filter into the
    result [None] and one printed line; it raises only when that line cannot
    be printed.  The world is never changed and no image is written. *)
Theorem adaptive_preprocessing_contained (host : Host) (numpy : NumPy)
        (cv : Cv2) (img : ndarray) (st : state) :
  st_world (snd (adaptive_preprocessing img st)) = st_world st /\
  writes (st_trace (snd (adaptive_preprocessing img st)))
  = writes (st_trace st) /\
  ((exists out,
       adaptive_body img = Ok out /\
       adaptive_preprocessing img st = (Ok (Some out), st)) \/
   (exists e,
       adaptive_body img = Raise e /\
       stdout_write (line_preprocessing_failed e) (st_world st) = Ok tt /\
       adaptive_preprocessing img st
       = (Ok None,
          {| st_world := st_world st;
             st_trace := st_trace st
                         ++ [Printed (line_preprocessing_failed e)] |})) \/
   (exists e e',
       adaptive_body img = Raise e /\
       stdout_write (line_preprocessing_failed e) (st_world st) = Raise e' /\
       adaptive_preprocessing img st = (Raise e', st))) /\
  ((forall e, stdout_write (line_preprocessing_failed e) (st_world st)
              = Ok tt) ->
   exists r st', adaptive_preprocessing img st = (Ok r, st')).
Proof.
  rewrite IOFacts.adaptive_preprocessing_cases.
  destruct (adaptive_body img) as [out | e].
  - split; [reflexivity |]. split; [reflexivity |]. split; eauto.
  - destruct (stdout_write (line_preprocessing_failed e) (st_world st))
      as [[] | e'] eqn:Ep.
    + split; [reflexivity |].
      split; [IOFacts.same_writes; reflexivity |]. split; [| eauto].
      right. left. exists e. auto.
    + split; [reflexivity |]. split; [reflexivity |]. split.
      * right. right. exists e, e'. auto.
      * intros Hout. rewrite Hout in Ep. discriminate Ep.
Qed.

Lemma adaptive_preprocessing_contained_witness :
  exists r st',
    @adaptive_preprocessing host_double np_double cv_double
       (Arr3 [[[0; 36]; [72; 109]]; [[145; 182]; [218; 255]]]) st0
    = (Ok r, st').
Proof.
  apply (proj2 (proj2 (proj2 (adaptive_preprocessing_contained
                                host_double np_double cv_double
                                (Arr3 [[[0; 36]; [72; 109]];
                                       [[145; 182]; [218; 255]]])
                                st0)))).
  intros e. reflexivity.
Defined.

(** The outcomes of [process_file], with the exact state each one leaves.
    If the header line cannot be printed the call raises at once.  After
    the header: a file that does not decode, or does not preprocess, ends in
    the print of its failure line; a file whose image [cv2.imwrite] accepts
    prints the success line, and if that line cannot be printed the image
    stays written and "Could not save" is what gets reported; a file whose
    write raises ends in the print of "Could not save". *)
Theorem process_file_outcomes (host : Host) (numpy : NumPy) (cv : Cv2)
        (file_path : string) (st : state) :
  let header := line_processing file_path in
  let out_path := out_path_of file_path in
  let st1 := {| st_world := st_world st;
                st_trace := st_trace st ++ [Printed header] |} in
  (forall e,
      stdout_write header (st_world st) = Raise e ->
      process_file file_path st = (Raise e, st)) /\
  (stdout_write header (st_world st) = Ok tt ->
   (forall e,
       decode_dicom file_path (st_world st) = Raise e ->
       process_file file_path st
       = print (line_load_error file_path e) st1) /\
   (forall img ds e,
       decode_dicom file_path (st_world st) = Ok (img, ds) ->
       adaptive_body img = Raise e ->
       process_file file_path st
       = print (line_preprocessing_failed e) st1) /\
   (forall img ds result b w,
       decode_dicom file_path (st_world st) = Ok (img, ds) ->
       adaptive_body img = Ok result ->
       cv2_imwrite out_path result (st_world st) = (Ok b, w) ->
       let st2 := {| st_world := w;
                     st_trace := st_trace st
                                 ++ [Printed header;
                                     Imwrite out_path result] |} in
       (stdout_write (line_saved out_path) w = Ok tt ->
        process_file file_path st
        = (Ok tt,
           {| st_world := w;
              st_trace := st_trace st
                          ++ [Printed header; Imwrite out_path result;
                              Printed (line_saved out_path)] |})) /\
       (forall e,
           stdout_write (line_saved out_path) w = Raise e ->
           process_file file_path st
           = print (line_could_not_save e) st2)) /\
   (forall img ds result e w,
       decode_dicom file_path (st_world st) = Ok (img, ds) ->
       adaptive_body img = Ok result ->
       cv2_imwrite out_path result (st_world st) = (Raise e, w) ->
       process_file file_path st
       = print (line_could_not_save e)
               {| st_world := w;
                  st_trace := st_trace st
                              ++ [Printed header;
                                  Imwrite out_path result] |})).
Proof.
  cbn zeta. rewrite IOFacts.process_file_cases. cbn zeta. unfold emit.
  split; [now intros e -> |].
  intros ->.
  split; [| split; [| split]].
  - now intros e ->.
  - now intros img ds e -> ->.
  - intros img ds result b w -> -> ->. cbn [st_trace].
    rewrite <- !app_assoc. cbn [app]. split.
    + intros Hp. unfold try_except, print, emit. cbn [st_world st_trace].
      rewrite Hp. now rewrite <- !app_assoc.
    + intros e Hp. unfold try_except. unfold print at 1. cbn [st_world].
      now rewrite Hp.
  - intros img ds result e w -> -> ->. cbn [st_trace].
    now rewrite <- !app_assoc.
Qed.

Lemma process_file_outcomes_witness :
  @process_file host_double np_double cv_double "Enter your Path/bad.dcm" st0
  = (Ok tt,
     @Build_state host_double []
       [Printed (line_processing "Enter your Path/bad.dcm");
        Printed " Error loading Enter your Path/bad.dcm: not a DICOM file"]).
Proof.
  rewrite (proj1 (proj2 (process_file_outcomes host_double np_double
                           cv_double "Enter your Path/bad.dcm" st0)
                     eq_refl)
             (Exception "not a DICOM file") eq_refl).
  reflexivity.
Defined.

(** When the program's lines can be printed, the success line is printed
    whenever [cv2.imwrite] returns, whatever it returns: a [False] result
    (nothing written) still reports "Saved". *)
Theorem saved_reported_even_if_imwrite_returns_false (host : Host)
        (numpy : NumPy) (cv : Cv2) (file_path : string) (st : state)
        img ds result w :
  stdout_write (line_processing file_path) (st_world st) = Ok tt ->
  decode_dicom file_path (st_world st) = Ok (img, ds) ->
  adaptive_body img = Ok result ->
  cv2_imwrite (out_path_of file_path) result (st_world st) = (Ok false, w) ->
  stdout_write (line_saved (out_path_of file_path)) w = Ok tt ->
  fst (process_file file_path st) = Ok tt /\
  last (printed (st_trace (snd (process_file file_path st)))) EmptyString
  = ("✅ Saved processed image: " ++ out_path_of file_path)%string.
Proof.
  intros Hh Hd Hb Hw Hs.
  rewrite IOFacts.process_file_cases. cbn zeta. rewrite Hh, Hd, Hb, Hw.
  unfold try_except, print. cbn [st_world]. rewrite Hs.
  split; [reflexivity |].
  unfold emit. cbn [snd st_trace]. rewrite <- !app_assoc. cbn [app].
  rewrite IOFacts.printed_app. cbn [printed].
  match goal with
  | |- last (?l ++ [?h; ?x]) _ = _ =>
      change (l ++ [h; x]) with (l ++ [h] ++ [x])
  end.
  rewrite app_assoc. apply last_last.
Qed.

Lemma saved_reported_even_if_imwrite_returns_false_witness :
  last (printed (st_trace (snd (@process_file host_readonly np_double
                                  cv_double "x.dcm"
                                  (@Build_state host_readonly tt [])))))
       EmptyString
  = "✅ Saved processed image: x.dcm_processed.png"%string.
Proof.
  refine (proj2 (saved_reported_even_if_imwrite_returns_false host_readonly
                   np_double cv_double "x.dcm" _ (Arr2 [[0; 255]]) tt
                   [[0; 255]] tt _ _ _ _ _)).
  - reflexivity.
  - reflexivity.
  - lazy. reflexivity.
  - reflexivity.
  - reflexivity.
Defined.

(** The success line sits inside the [try] of the save step.  When the
    image has been written but the success line cannot be printed, the
    handler reports "Could not save processed image" although the image is
    there: the world is the one [cv2.imwrite] left and the write is in the
    trace. *)
Theorem written_image_reported_unsaved (host : Host) (numpy : NumPy)
        (cv : Cv2) (file_path : string) (st : state) img ds result b w e :
  stdout_write (line_processing file_path) (st_world st) = Ok tt ->
  decode_dicom file_path (st_world st) = Ok (img, ds) ->
  adaptive_body img = Ok result ->
  cv2_imwrite (out_path_of file_path) result (st_world st) = (Ok b, w) ->
  stdout_write (line_saved (out_path_of file_path)) w = Raise e ->
  stdout_write (line_could_not_save e) w = Ok tt ->
  fst (process_file file_path st) = Ok tt /\
  st_world (snd (process_file file_path st)) = w /\
  writes (st_trace (snd (process_file file_path st)))
  = writes (st_trace st) ++ [(out_path_of file_path, result)] /\
  last (printed (st_trace (snd (process_file file_path st)))) EmptyString
  = line_could_not_save e.
Proof.
  intros Hh Hd Hb Hw Hs Hc.
  rewrite IOFacts.process_file_cases. cbn zeta. rewrite Hh, Hd, Hb, Hw.
  unfold try_except, print. cbn [st_world]. rewrite Hs. cbn [st_world].
  rewrite Hc.
  split; [reflexivity |]. split; [reflexivity |]. split.
  - IOFacts.same_writes. reflexivity.
  - unfold emit. cbn [snd st_trace]. rewrite <- !app_assoc. cbn [app].
    rewrite IOFacts.printed_app. cbn [printed].
    match goal with
    | |- last (?l ++ [?h; ?x]) _ = _ =>
        change (l ++ [h; x]) with (l ++ [h] ++ [x])
    end.
    rewrite app_assoc. apply last_last.
Qed.

Lemma written_image_reported_unsaved_witness :
  writes (st_trace (snd (@process_file host_ascii np_double cv_double "x.dcm"
                           (@Build_state host_ascii [] []))))
  = [("x.dcm_processed.png"%string, [[0; 255]])] /\
  last (printed (st_trace (snd (@process_file host_ascii np_double cv_double
                                  "x.dcm"
                                  (@Build_state host_ascii [] [])))))
       EmptyString
  = " Could not save processed image: UnicodeEncodeError"%string.
Proof.
  pose proof (written_image_reported_unsaved host_ascii np_double cv_double
                "x.dcm" (@Build_state host_ascii [] []) (Arr2 [[0; 255]]) tt
                [[0; 255]] true [("x.dcm_processed.png"%string, [[0; 255]])]
                (Exception "UnicodeEncodeError")
                eq_refl eq_refl ltac:(lazy; reflexivity) eq_refl eq_refl
                eq_refl)
    as (_ & _ & Hw & Hl).
  split; [exact Hw | exact Hl].
Defined.

(** A batch writes at most one image per file, each to the output path of
    one of its files; nothing else is ever written. *)
Theorem batch_writes_accounted (host : Host) (numpy : NumPy) (cv : Cv2)
        (files : list string) (st : state) :
  (List.length (writes (st_trace (snd (main_loop files st))))
   <= List.length (writes (st_trace st)) + List.length files)%nat /\
  forall p i,
    In (p, i) (writes (st_trace (snd (main_loop files st)))) ->
    In (p, i) (writes (st_trace st)) \/
    exists f, In f files /\ p = out_path_of f.
Proof.
  split; [apply LoopFacts.main_loop_writes_count |].
  intros p i. apply LoopFacts.main_loop_writes_from.
Qed.

Lemma batch_writes_accounted_witness :
  In ("Enter your Path/a_processed.png"%string, [[0; 85]; [170; 255]])
     (writes (st_trace st0)) \/
  exists f,
    In f ["Enter your Path/a.dcm"; "Enter your Path/bad.dcm"]%string /\
    "Enter your Path/a_processed.png"%string = @out_path_of host_double f.
Proof.
  refine (proj2 (batch_writes_accounted host_double np_double cv_double
                   ["Enter your Path/a.dcm"; "Enter your Path/bad.dcm"]%string
                   st0)
            "Enter your Path/a_processed.png"%string [[0; 85]; [170; 255]] _).
  lazy. left. reflexivity.
Defined.

(** When every file of the batch is missing, fails to decode or fails to
    preprocess, the batch leaves the world and the set of written files
    untouched, whether it runs to its end or is stopped by a line that
    cannot be printed; on a standard output that accepts every line it ends
    normally. *)
Theorem failing_batch_changes_nothing (host : Host) (numpy : NumPy)
        (cv : Cv2) (files : list string) (st : state) :
  (forall f, In f files ->
             os_path_exists f (st_world st) = false \/
             (exists e, decode_dicom f (st_world st) = Raise e) \/
             (exists img ds e,
                 decode_dicom f (st_world st) = Ok (img, ds) /\
                 adaptive_body img = Raise e)) ->
  st_world (snd (main_loop files st)) = st_world st /\
  writes (st_trace (snd (main_loop files st))) = writes (st_trace st) /\
  (stdout_accepts_all host -> fst (main_loop files st) = Ok tt).
Proof.
  intros H.
  destruct (LoopFacts.main_loop_all_fail files (st_world st) st eq_refl H)
    as [H1 H2].
  split; [exact H1 |]. split; [exact H2 |].
  intros Hout. now apply IOFacts.main_loop_returns.
Qed.

Lemma failing_batch_changes_nothing_witness :
  st_world (snd (@main_loop host_double np_double cv_double
                   ["Enter your Path/gone.dcm";
                    "Enter your Path/bad.dcm";
                    "Enter your Path/frames.dcm"]%string st0))
  = st_world st0 /\
  fst (@main_loop host_double np_double cv_double
         ["Enter your Path/gone.dcm";
          "Enter your Path/bad.dcm";
          "Enter your Path/frames.dcm"]%string st0)
  = Ok tt.
Proof.
  pose proof (failing_batch_changes_nothing host_double np_double cv_double
                ["Enter your Path/gone.dcm";
                 "Enter your Path/bad.dcm";
                 "Enter your Path/frames.dcm"]%string st0) as Hthm.
  destruct Hthm as (Hw & _ & Hret).
  - intros f [<- | [<- | [<- | []]]].
    + left. reflexivity.
    + right. left. eexists. reflexivity.
    + right. right. eexists _, _, _. split; [reflexivity | lazy; reflexivity].
  - split; [exact Hw |]. apply Hret. intros line w. reflexivity.
Defined.

(** The [__main__] block.  If the directory cannot be listed it prints one
    line and processes nothing; otherwise it runs the loop on the listed
    names that pass the filter, joined to the directory, in listing order.
    Every image it writes goes to the output path of such a name.  On a
    standard output that accepts every line it never raises. *)
Theorem main_behaviour (host : Host) (numpy : NumPy) (cv : Cv2)
        (st : state) :
  (forall e,
      os_listdir image_dir (st_world st) = Raise e ->
      main st = print (line_listdir_failed image_dir e) st) /\
  (forall names,
      os_listdir image_dir (st_world st) = Ok names ->
      main st
      = main_loop (map (os_path_join image_dir) (filter is_candidate names))
                  st) /\
  (forall p i,
      In (p, i) (writes (st_trace (snd (main st)))) ->
      In (p, i) (writes (st_trace st)) \/
      exists names name,
        os_listdir image_dir (st_world st) = Ok names /\
        In name names /\ is_candidate name = true /\
        p = out_path_of (os_path_join image_dir name)) /\
  (stdout_accepts_all host -> fst (main st) = Ok tt).
Proof.
  rewrite LoopFacts.main_cases.
  destruct (os_listdir image_dir (st_world st)) as [names | e].
  - split; [discriminate |]. split; [now intros ? [= <-] |]. split.
    + intros p i H.
      apply LoopFacts.main_loop_writes_from in H as [H | (f & Hf & ->)];
        [now left | right].
      apply in_map_iff in Hf as (name & <- & Hn).
      apply filter_In in Hn as [Hn Hc]. exists names, name. auto.
    + intros Hout. now apply IOFacts.main_loop_returns.
  - split; [now intros ? [= <-] |]. split; [discriminate |]. split.
    + intros p i H. left.
      now rewrite (proj2 (IOFacts.print_quiet _ st)) in H.
    + intros Hout. unfold print. now rewrite Hout.
Qed.

Lemma main_behaviour_witness :
  map fst (writes (st_trace (snd (@main host_double np_double cv_double
                                    st0))))
  = ["Enter your Path/a_processed.png";
     "Enter your Path/c_processed.png"]%string /\
  fst (@main host_double np_double cv_double st0) = Ok tt.
Proof.
  pose proof (main_behaviour host_double np_double cv_double st0)
    as (_ & Hloop & _ & Hret).
  split.
  - rewrite (Hloop ["a.dcm"; "bad.dcm"; "notes.txt"; "c.rvg"]%string eq_refl).
    lazy. reflexivity.
  - apply Hret. intros line w. reflexivity.
Defined.

(** On a standard output that accepts every line, every failure stays with
    its file: the loop runs to its end whatever the files do, every file is
    handled in turn after the files before it, and every file that exists,
    decodes and preprocesses has its output image written, whatever happened
    to the others. *)
Theorem batch_isolated_when_stdout_accepts (host : Host) (numpy : NumPy)
        (cv : Cv2) (sample_files : list string) (st : state) :
  stdout_accepts_all host ->
  fst (main_loop sample_files st) = Ok tt /\
  forall pre file post,
    sample_files = pre ++ file :: post ->
    let st_file := snd (main_loop pre st) in
    snd (main_loop (pre ++ [file]) st) = snd (loop_body file st_file) /\
    forall img ds result,
      os_path_exists file (st_world st_file) = true ->
      decode_dicom file (st_world st_file) = Ok (img, ds) ->
      adaptive_body img = Ok result ->
      In (out_path_of file, result)
         (writes (st_trace (snd (main_loop sample_files st)))).
Proof.
  intros Hout. split; [now apply IOFacts.main_loop_returns |].
  intros pre file post -> st_file.
  assert (Hpre : fst (main_loop pre st) = Ok tt)
    by now apply IOFacts.main_loop_returns.
  assert (Hfile : forall st', fst (loop_body file st') = Ok tt)
    by (intros st'; now apply IOFacts.loop_body_returns).
  split.
  - rewrite IOFacts.main_loop_app by assumption. fold st_file.
    now rewrite IOFacts.main_loop_cons_ok.
  - intros img ds result Hex Hdec Hbody.
    rewrite IOFacts.main_loop_app by assumption. fold st_file.
    rewrite IOFacts.main_loop_cons_ok by apply Hfile.
    destruct (IOFacts.main_loop_extends post (snd (loop_body file st_file)))
      as [tr2 H2].
    rewrite H2, IOFacts.writes_app. apply in_or_app. left.
    unfold loop_body. rewrite Hex.
    rewrite (IOFacts.process_file_writes file st_file img ds result
               (Hout _ _) Hdec Hbody).
    apply in_or_app. right. now left.
Qed.

Lemma batch_isolated_when_stdout_accepts_witness :
  In (@out_path_of host_double "Enter your Path/c.rvg",
      [[255; 0]; [7; 30]])
     (writes (st_trace (snd (@main_loop host_double np_double cv_double
                               ["Enter your Path/a.dcm";
                                "Enter your Path/bad.dcm";
                                "Enter your Path/c.rvg"]%string st0)))).
Proof.
  refine (proj2 (proj2 (batch_isolated_when_stdout_accepts host_double
                          np_double cv_double
                          ["Enter your Path/a.dcm";
                           "Enter your Path/bad.dcm";
                           "Enter your Path/c.rvg"]%string st0 _)
                   ["Enter your Path/a.dcm";
                    "Enter your Path/bad.dcm"]%string
                   "Enter your Path/c.rvg"%string [] _)
            (Arr2 [[255; 0]; [7; 30]]) tt [[255; 0]; [7; 30]] _ _ _).
  - intros line w. reflexivity.
  - reflexivity.
  - reflexivity.
  - reflexivity.
  - lazy. reflexivity.
Defined.

(** A constant 8-bit image of any size is run with the smallest clip limit
    1.0 and the smallest denoising strength 5.0; only the sharpening depends
    on what the Laplacian returns. *)
Theorem constant_image_run (numpy : NumPy) (laws : NumPyLaws numpy)
        (cv : Cv2) (h w : nat) (c : Z) :
  (0 < h)%nat -> (0 < w)%nat -> 0 <= c <= 255 ->
  (exists k, contrast (flat h w c) = Ok k /\ clahe_clip k = B64.of_Z 1) /\
  denoise_strength (noise_level (flat h w c)) = B64.of_Z 5 /\
  adaptive_body (Arr2 (flat h w c))
  = (sharpness <- Laplacian_var (flat h w c) ;;
     img_clahe <- CLAHE_apply (B64.of_Z 1) (8, 8) (flat h w c) ;;
     img_bilateral <- bilateralFilter img_clahe 9 75 75 ;;
     img_denoised <- fastNlMeansDenoising img_bilateral (B64.of_Z 5) 7 21 ;;
     gaussian <- GaussianBlur img_denoised (5, 5) (B64.dec 12 10) ;;
     addWeighted img_denoised (strength sharpness) gaussian
                 (B64.sub (B64.of_Z 1) (strength sharpness)) 0)%res.
Proof.
  intros Hh Hw Hc.
  assert (Hu : is_uint8 (flat h w c)).
  { unfold is_uint8, flat. apply Forall_forall. intros r Hr.
    apply repeat_spec in Hr. subst r. apply Forall_forall. intros x Hx.
    apply repeat_spec in Hx. now subst x. }
  rewrite PatchFacts.contrast_flat, PatchFacts.noise_level_flat
    by assumption.
  split; [exists B64.pzero; split; [reflexivity | vm_compute; reflexivity] |].
  split; [vm_compute; reflexivity |].
  unfold adaptive_body. cbn [rbind].
  rewrite (ClampFacts.clip_uint8_id _ Hu). unfold estimate_metrics.
  rewrite PatchFacts.contrast_flat by assumption. cbn [rbind].
  destruct (Laplacian_var (flat h w c)) as [s | e]; cbn [rbind];
    [| reflexivity].
  cbn [m_contrast m_noise_level m_sharpness].
  rewrite PatchFacts.noise_level_flat by assumption.
  rewrite PipelineFacts.blend_weight.
  replace (clahe_clip B64.pzero) with (B64.of_Z 1)
    by (vm_compute; reflexivity).
  replace (denoise_strength B64.pzero) with (B64.of_Z 5)
    by (vm_compute; reflexivity).
  reflexivity.
Qed.

Lemma constant_image_run_witness :
  exists k, @contrast np_double (flat 5 7 200) = Ok k /\
            clahe_clip k = B64.of_Z 1.
Proof.
  apply (proj1 (constant_image_run np_double DoubleFacts.np_double_laws
                  cv_double 5 7 200 ltac:(lia) ltac:(lia) ltac:(lia))).
Defined.
